(** * X-keylogger (xkey.c): window selection and event capture

    A shallow embedding of [xkey.c].  The X server and Xlib are external
    collaborators: their answers are data of the model (a record of query
    functions for the server, fields of the event for the keyboard mapping),
    and every function of the program is translated over them.

    C strings (window names, the designator, key fragments, the log) are
    values of [string]; a [char *] that may be [NULL] is an [option string].
    The fixed scratch buffer [key_buff] is a [list ascii] of its capacity. *)

From Stdlib Require Import List String Ascii NArith Arith Bool Lia.
From Stdlib Require Import HexString.
Import ListNotations.
Open Scope string_scope.

(* ================================================================== *)
(** ** The windowing collaborator *)

(** A window handle is an XID ([unsigned long]). *)
Definition Window := N.

(** What the program can ask the server about the window hierarchy.
    - [XQueryTree w] is [None] when the call returns status 0, and the
      [children] array (of [nchildren] entries) otherwise;
    - [XGetWindowProperty_NET_WM_NAME w] is [Some s] when the property
      query returns [Success] with a non-[NULL] [prop], read as a C string;
    - [XFetchName w] is [Some s] when the call returns non-zero with a
      non-[NULL] name. *)
Record XServer := mkXServer {
  DefaultRootWindow : Window;
  XQueryTree : Window -> option (list Window);
  XGetWindowProperty_NET_WM_NAME : Window -> option string;
  XFetchName : Window -> option string
}.

(** Event masks of X11/X.h. *)
Definition KeyPressMask : N := N.shiftl 1 0.
Definition FocusChangeMask : N := N.shiftl 1 21.

(* ================================================================== *)
(** ** getWindowName (xkey.c 57-89) *)

Definition getWindowName (disp : XServer) (w : Window) : option string :=
  match XGetWindowProperty_NET_WM_NAME disp w with
  | Some prop => Some prop
  | None =>
      match XFetchName disp w with
      | Some name_legacy => Some name_legacy
      | None => None
      end
  end.

(* ================================================================== *)
(** ** nameMatchesDesignated (xkey.c 95-104) *)

(** [strstr haystack needle]: the suffix of [haystack] that starts at the
    first occurrence of [needle], [None] when there is none. *)
Fixpoint strstr (haystack needle : string) : option string :=
  if String.prefix needle haystack then Some haystack
  else match haystack with
       | EmptyString => None
       | String _ rest => strstr rest needle
       end.

Definition is_empty (s : string) : bool :=
  match s with EmptyString => true | String _ _ => false end.

Definition nameMatchesDesignated (wname designated : option string) : bool :=
  match wname with
  | None => false
  | Some n =>
      if is_empty n then false
      else match designated with
           | None => false
           | Some d =>
               if is_empty d then false
               else match strstr n d with Some _ => true | None => false end
           end
  end.

(* ================================================================== *)
(** ** The client's state during start-up *)

(** - [matched_windows] is the global array of that name; [matched_count]
      is its length;
    - [name_lookups] records, in call order, the handles the walker passes
      to [getWindowName] (xkey.c 130): the nodes it visits;
    - [input_selected] records the [XSelectInput] calls, in call order. *)
Record client := mkClient {
  matched_windows : list Window;
  name_lookups : list Window;
  input_selected : list (Window * N)
}.

Definition matched_count (st : client) : nat := List.length (matched_windows st).

Definition initial_client : client := mkClient [] [] [].

Definition looked_up (w : Window) (st : client) : client :=
  mkClient (matched_windows st) (name_lookups st ++ [w]) (input_selected st).

Definition append_match (w : Window) (st : client) : client :=
  mkClient (matched_windows st ++ [w]) (name_lookups st) (input_selected st).

Definition XSelectInput (w : Window) (event_mask : N) (st : client) : client :=
  mkClient (matched_windows st) (name_lookups st) (input_selected st ++ [(w, event_mask)]).

(* ================================================================== *)
(** ** find_matched_windows (xkey.c 118-150) *)

(** The body of the [for] loop over [children], with the recursive call
    abstracted as [descend]. *)
Fixpoint match_children (disp : XServer) (descend : Window -> client -> option client)
    (designated : option string) (children : list Window) (st : client)
    : option client :=
  match children with
  | [] => Some st
  | child :: rest =>
      let wname := getWindowName disp child in
      let st1 := looked_up child st in
      let st2 :=
        match wname with
        | Some _ =>
            if nameMatchesDesignated wname designated
            then append_match child st1
            else st1
        | None => st1
        end in
      match descend child st2 with
      | None => None
      | Some st3 => match_children disp descend designated rest st3
      end
  end.

(** [fuel] bounds the recursion depth; [None] means the bound was reached. *)
Fixpoint find_matched_windows (disp : XServer) (fuel : nat) (root : Window)
    (designated : option string) (st : client) : option client :=
  match fuel with
  | O => None
  | S fuel' =>
      match XQueryTree disp root with
      | None => Some st
      | Some children =>
          if (List.length children =? 0)%nat then Some st
          else match_children disp
                 (fun w => find_matched_windows disp fuel' w designated)
                 designated children st
      end
  end.

(* ================================================================== *)
(** ** snoop_windows (xkey.c 158-213) *)

(** The [for] loop of the nested function [recursive_select], and of the
    loop around it, with the recursive call abstracted as [descend]. *)
Fixpoint select_children (descend : Window -> client -> option client)
    (children : list Window) (st : client) : option client :=
  match children with
  | [] => Some st
  | child :: rest =>
      let st1 := XSelectInput child (N.lor KeyPressMask FocusChangeMask) st in
      match descend child st1 with
      | None => None
      | Some st2 => select_children descend rest st2
      end
  end.

Fixpoint recursive_select (disp : XServer) (fuel : nat) (w : Window)
    (st : client) : option client :=
  match fuel with
  | O => None
  | S fuel' =>
      match XQueryTree disp w with
      | None => Some st
      | Some ch =>
          if (List.length ch =? 0)%nat then Some st
          else select_children (recursive_select disp fuel') ch st
      end
  end.

(** The loop over [matched_windows] (xkey.c 171-174). *)
Definition select_matched (st : client) : client :=
  fold_left (fun s w => XSelectInput w (N.lor KeyPressMask FocusChangeMask) s)
            (matched_windows st) st.

(** Returns [*foundAnyMatches] and the client's state. *)
Definition snoop_windows (disp : XServer) (fuel : nat) (designated : option string)
    (st : client) : option (bool * client) :=
  let root := DefaultRootWindow disp in
  match find_matched_windows disp fuel root designated st with
  | None => None
  | Some st1 =>
      if (0 <? matched_count st1)%nat then Some (true, select_matched st1)
      else
        match XQueryTree disp root with
        | Some children =>
            if (0 <? List.length children)%nat then
              match select_children (recursive_select disp fuel) children st1 with
              | None => None
              | Some st2 => Some (false, st2)
              end
            else Some (false, st1)
        | None => Some (false, st1)
        end
  end.

(** The monitoring set: the windows on which both key-press and focus-change
    interest is registered. *)
Definition wants_keys_and_focus (sel : Window * N) : bool :=
  N.testbit (snd sel) 0 && N.testbit (snd sel) 21.

Definition monitoring (st : client) : list Window :=
  map fst (filter wants_keys_and_focus (input_selected st)).

(* ================================================================== *)
(** ** Window hierarchies *)

(** A finite hierarchy: a window and the hierarchies of its children, in
    the order the server enumerates them. *)
#[local] Unset Elimination Schemes.
Inductive hierarchy : Type :=
| Node (w : Window) (subwindows : list hierarchy).
#[local] Set Elimination Schemes.

Definition handle (t : hierarchy) : Window :=
  match t with Node w _ => w end.

Definition subwindows_of (t : hierarchy) : list hierarchy :=
  match t with Node _ kids => kids end.

(** Every window below the root of [t], each child before its own subtree
    and each subtree before the next sibling (pre-order). *)
Fixpoint descendants (t : hierarchy) : list Window :=
  match t with
  | Node _ kids => flat_map (fun k => handle k :: descendants k) kids
  end.

Fixpoint height (t : hierarchy) : nat :=
  match t with
  | Node _ kids => S (list_max (map height kids))
  end.

(** The children the program sees at [w]: none when the query fails. *)
Definition reported_children (disp : XServer) (w : Window) : list Window :=
  match XQueryTree disp w with
  | Some children => children
  | None => []
  end.

Fixpoint windows_eqb (l1 l2 : list Window) : bool :=
  match l1, l2 with
  | [], [] => true
  | a :: l1', b :: l2' => N.eqb a b && windows_eqb l1' l2'
  | _, _ => false
  end.

(** [mirrors disp t]: at every node of [t] the server enumerates exactly the
    roots of the node's subtrees. *)
Fixpoint mirrors (disp : XServer) (t : hierarchy) : bool :=
  match t with
  | Node w kids =>
      windows_eqb (reported_children disp w) (map handle kids)
      && forallb (mirrors disp) kids
  end.

(** The walker's acceptance test at a window. *)
Definition accepts (disp : XServer) (designated : option string) (w : Window) : bool :=
  nameMatchesDesignated (getWindowName disp w) designated.

(** Substring containment, as the specification words it. *)
Definition contains (name d : string) : Prop :=
  exists pre post, name = pre ++ d ++ post.

Definition name_contains (disp : XServer) (d : string) (w : Window) : Prop :=
  exists name, getWindowName disp w = Some name /\ contains name d.

(** The state after the walker has visited the windows [ws] in order. *)
Definition walked (disp : XServer) (designated : option string)
    (ws : list Window) (st : client) : client :=
  mkClient (matched_windows st ++ filter (accepts disp designated) ws)
           (name_lookups st ++ ws)
           (input_selected st).

(** The state after [XSelectInput] on the windows [ws] in order. *)
Definition selected (ws : list Window) (st : client) : client :=
  mkClient (matched_windows st) (name_lookups st)
           (input_selected st
            ++ map (fun w => (w, N.lor KeyPressMask FocusChangeMask)) ws).


(* ================================================================== *)
(** ** getTimeStr (xkey.c 28-46) *)

(** What the C library answers when the time is asked: [time] fails,
    [localtime] fails, or [strftime] renders the local time with the
    format "%Y-%m-%d %H:%M:%S". *)
Inductive clock : Type :=
| TimeFails
| LocaltimeFails
| LocalTime (rendered : string).

Definition getTimeStr (now : clock) : string :=
  match now with
  | TimeFails => "UnknownTime"
  | LocaltimeFails => "UnknownTime"
  | LocalTime rendered => rendered
  end.

(* ================================================================== *)
(** ** The scratch buffer and the Xlib calls of TranslateKeyCode *)

Definition KEY_BUFF_SIZE : nat := 256.

Definition KeySym := N.

Definition NUL : ascii := Ascii.zero.

(** A key-press event, with what the keyboard mapping holds for its key and
    modifier state: the characters it translates to and its key symbol. *)
Record XKeyEvent := mkXKeyEvent {
  xk_translation : list ascii;
  xk_keysym : KeySym
}.

(** [chars] written over the start of [buf]. *)
Definition overwrite (buf chars : list ascii) : list ascii :=
  (chars ++ skipn (List.length chars) buf)%list.

(** [buf[i] = c]; [None] when [i] is outside the array. *)
Definition store (buf : list ascii) (i : nat) (c : ascii) : option (list ascii) :=
  if (i <? List.length buf)%nat
  then Some (firstn i buf ++ c :: skipn (S i) buf)%list
  else None.

(** The C string held in [buf]: the characters before the first NUL. *)
Fixpoint c_str (buf : list ascii) : string :=
  match buf with
  | [] => EmptyString
  | c :: rest => if Ascii.eqb c NUL then EmptyString else String c (c_str rest)
  end.

(** [XLookupString(xk, buffer, bytes_buffer, &ks, NULL)]: stores at most
    [bytes_buffer] characters of the translation in [buffer]; returns their
    number, the buffer and the key symbol. *)
Definition XLookupString (xk : XKeyEvent) (buffer : list ascii) (bytes_buffer : nat)
    : nat * list ascii * KeySym :=
  let chars := firstn bytes_buffer (xk_translation xk) in
  (List.length chars, overwrite buffer chars, xk_keysym xk).

(** [snprintf(buf, size, ...)] for the formatted [text]: at most [size - 1]
    characters, then a NUL. *)
Definition snprintf (buf : list ascii) (size : nat) (text : string) : list ascii :=
  overwrite buf (firstn (size - 1) (list_ascii_of_string text) ++ [NUL]).

(* ================================================================== *)
(** ** Events and the state of the running process *)

Inductive XEvent : Type :=
| FocusIn (window : Window)
| KeyPress (xk : XKeyEvent)
| OtherEvent.

(** What one turn of the loop receives: the event [XNextEvent] delivers,
    the server as it is when the turn runs, the clock, and whether
    [fopen("keylog.txt", "a")] succeeds. *)
Record arrival := mkArrival {
  xev : XEvent;
  display : XServer;
  now : clock;
  fopen_ok : bool
}.

(** The console stream, the content of keylog.txt and [key_buff]. *)
Record process := mkProcess {
  stdout : string;
  keylog : string;
  key_buff : list ascii
}.

(** A turn of the loop leaves the process running, ends it through
    [exit(status)], or writes outside [key_buff]. *)
Inductive outcome : Type :=
| Running (p : process)
| Exited (status : nat) (p : process)
| OutOfBounds.

Definition LF : string := String "010"%char EmptyString.

(** The line of a focus record in the log, and on the console. *)
Definition focus_log_line (time_str wname : string) : string :=
  "[" ++ time_str ++ "] FocusIn: " ++ wname.

Definition focus_console_line (time_str : string) (focusedWin : Window)
    (wname : string) : string :=
  "[" ++ time_str ++ "] FocusIn: " ++ HexString.of_N focusedWin ++ " => " ++ wname.

(** The process when the loop starts: nothing on the console, the banner
    in the log, [key_buff] zero-initialised. *)
Definition process_at_start : process :=
  mkProcess "" ("Keylogger started" ++ LF) (repeat NUL KEY_BUFF_SIZE).

Definition join (fragments : list string) : string :=
  fold_right String.append "" fragments.

Section Capture.
(** The symbolic name Xlib has for a key symbol, [None] for [NULL]. *)
Variable XKeysymToString : KeySym -> option string.

(* ------------------------------------------------------------------ *)
(** *** TranslateKeyCode (xkey.c 218-239) *)

(** Takes and returns the content of the static array [key_buff]; the
    pointer the C function returns is [key_buff] itself.  [None] is a
    write outside the array. *)
Definition TranslateKeyCode (key_buff : list ascii) (ev : XKeyEvent)
    : option (list ascii) :=
  let '(count, key_buff1, ks) := XLookupString ev key_buff KEY_BUFF_SIZE in
  match store key_buff1 count NUL with
  | None => None
  | Some key_buff2 =>
      if (count =? 0)%nat then
        match XKeysymToString ks with
        | Some tmp =>
            Some (snprintf key_buff2 KEY_BUFF_SIZE ("<" ++ tmp ++ ">"))
        | None =>
            Some (snprintf key_buff2 KEY_BUFF_SIZE "<UnknownKey>")
        end
      else Some key_buff2
  end.

(** The text fragment a caller reads through the returned pointer. *)
Definition fragment (key_buff : list ascii) (ev : XKeyEvent) : option string :=
  option_map c_str (TranslateKeyCode key_buff ev).

(* ------------------------------------------------------------------ *)
(** *** The event loop of main (xkey.c 278-329) *)

(** One turn of the loop.  What [perror] prints goes to the error stream,
    which is not part of the state. *)
Definition iteration (p : process) (a : arrival) : outcome :=
  if negb (fopen_ok a) then Exited 1 p
  else
    match xev a with
    | FocusIn focusedWin =>
        match getWindowName (display a) focusedWin with
        | Some wname =>
            if is_empty wname then Running p
            else
              let time_str := getTimeStr (now a) in
              Running
                (mkProcess
                   (stdout p ++ LF
                    ++ focus_console_line time_str focusedWin wname ++ LF)
                   (keylog p ++ LF ++ focus_log_line time_str wname ++ LF)
                   (key_buff p))
        | None => Running p
        end
    | KeyPress xk =>
        match TranslateKeyCode (key_buff p) xk with
        | None => OutOfBounds
        | Some key_buff' =>
            let ks := c_str key_buff' in
            Running (mkProcess (stdout p ++ ks) (keylog p ++ ks) key_buff')
        end
    | OtherEvent => Running p
    end.

(** The [while (1)] loop over the events that arrive, in order. *)
Fixpoint event_loop (p : process) (arrivals : list arrival) : outcome :=
  match arrivals with
  | [] => Running p
  | a :: rest =>
      match iteration p a with
      | Running p' => event_loop p' rest
      | stopped => stopped
      end
  end.
End Capture.

(* ================================================================== *)
(** ** The properties under study *)

(** A window's resolved name contains the designator, in the sense of
    the specification: substring containment, the empty designator being
    contained in no name. *)
Definition name_matches (disp : XServer) (d : string) (w : Window) : Prop :=
  d <> "" /\ name_contains disp d w.




(** No NUL among the characters. *)
Definition nul_free (chars : list ascii) : bool :=
  forallb (fun c => negb (Ascii.eqb c NUL)) chars.

(** The text [snprintf] formats when the lookup yields no character. *)
Definition symbolic_text (XKeysymToString : KeySym -> option string)
    (ks : KeySym) : string :=
  match XKeysymToString ks with
  | Some tmp => "<" ++ tmp ++ ">"
  | None => "<UnknownKey>"
  end.

(** The fragment the translator leaves in [key_buff], whatever the array
    held before. *)
Definition fragment_text (XKeysymToString : KeySym -> option string)
    (ev : XKeyEvent) : string :=
  match xk_translation ev with
  | [] => c_str (firstn (KEY_BUFF_SIZE - 1)
                   (list_ascii_of_string
                      (symbolic_text XKeysymToString (xk_keysym ev))))
  | chars => c_str chars
  end.

(** A turn of the loop that receives a key press translating to [f], the
    log opening. *)
Definition key_press_of (XKeysymToString : KeySym -> option string)
    (key_buff : list ascii) (a : arrival) (f : string) : Prop :=
  fopen_ok a = true
  /\ exists xk, xev a = KeyPress xk
                /\ fragment XKeysymToString key_buff xk = Some f.

(* ================================================================== *)
(** ** Reachability in what the server reports *)

(** [below disp w v]: [v] is reached from [w] by one or more steps of
    child enumeration. *)
Inductive below (disp : XServer) : Window -> Window -> Prop :=
| below_child (w c : Window) :
    In c (reported_children disp w) -> below disp w c
| below_deeper (w c v : Window) :
    In c (reported_children disp w) -> below disp c v -> below disp w v.

(* ================================================================== *)
(** ** What the loop records *)

(** The process an outcome leaves, if any. *)
Definition process_of (o : outcome) : option process :=
  match o with
  | Running p => Some p
  | Exited _ p => Some p
  | OutOfBounds => None
  end.

(** Whether a turn of the loop writes anything for the arrival: a key
    press, or a focus-in on a window with a non-empty resolved name. *)
Definition leaves_record (a : arrival) : bool :=
  match xev a with
  | KeyPress _ => true
  | FocusIn w =>
      match getWindowName (display a) w with
      | Some wname => negb (is_empty wname)
      | None => false
      end
  | OtherEvent => false
  end.

(** An arrival that cannot stop the loop: the log opens and, for a key
    press, the translation leaves room for the terminator. *)
Definition harmless (a : arrival) : bool :=
  fopen_ok a
  && match xev a with
     | KeyPress xk => (List.length (xk_translation xk) <? KEY_BUFF_SIZE)%nat
     | _ => true
     end.

(* ================================================================== *)
(** ** main (xkey.c 244-334) *)

(** How a run of [main] stands after the events received so far: it left
    through [exit] before the loop, it is in the loop (with the input
    selection made at start-up, [foundAnyMatches] and the loop's outcome),
    or the walker did not return within the recursion bound.  What is
    printed on the error stream is not part of the result. *)
Inductive main_result : Type :=
| StartupExit (status : nat) (c : client)
| Looping (c : client) (foundAnyMatches : bool) (o : outcome)
| WalkUnbounded.

Definition exit_status (r : main_result) : option nat :=
  match r with
  | StartupExit status _ => Some status
  | Looping _ _ (Exited status _) => Some status
  | _ => None
  end.

Section Main.
Variable XKeysymToString : KeySym -> option string.
(** [XOpenDisplay(hostname)], [None] for [NULL]. *)
Variable XOpenDisplay : string -> option XServer.

(** [argv] holds the program name and the arguments; [fopen_w_ok] tells
    whether [fopen("keylog.txt", "w")] succeeds. *)
Definition main (fuel : nat) (argv : list string) (fopen_w_ok : bool)
    (arrivals : list arrival) : main_result :=
  if (List.length argv <? 2)%nat then StartupExit 1 initial_client
  else
    let hostname := nth 1 argv "" in
    let designated_name :=
      if (3 <=? List.length argv)%nat then nth 2 argv "" else "" in
    match XOpenDisplay hostname with
    | None => StartupExit 10 initial_client
    | Some d =>
        match snoop_windows d fuel (Some designated_name) initial_client with
        | None => WalkUnbounded
        | Some (foundAnyMatches, c) =>
            if negb fopen_w_ok then StartupExit 1 c
            else Looping c foundAnyMatches
                   (event_loop XKeysymToString process_at_start arrivals)
        end
    end.
End Main.

(* ================================================================== *)
(** ** Sample hierarchies *)

(** root 1 with children 10 ("Mozilla Firefox", modern title), 20 (legacy
    title "xterm") and 30 (no title); 10 has child 11 ("firefox popup"),
    20 has child 21 (no title) whose child 22 is titled "Firefox". *)
Definition sample_server : XServer :=
  mkXServer 1%N
    (fun w => match w with
              | 1 => Some [10; 20; 30]
              | 10 => Some [11]
              | 20 => Some [21]
              | 21 => Some [22]
              | 30 => None
              | _ => Some []
              end%N)
    (fun w => match w with
              | 10 => Some "Mozilla Firefox"
              | 11 => Some "firefox popup"
              | 22 => Some "Firefox"
              | _ => None
              end%N)
    (fun w => match w with
              | 10 => Some "old title"
              | 20 => Some "xterm"
              | _ => None
              end%N).

Definition sample_hierarchy : hierarchy :=
  Node 1%N [ Node 10%N [Node 11%N []];
             Node 20%N [Node 21%N [Node 22%N []]];
             Node 30%N [] ].

(** root 1 with children 2 (titled "a") and 3 (no title). *)
Definition small_server : XServer :=
  mkXServer 1%N
    (fun w => match w with 1 => Some [2; 3] | _ => Some [] end%N)
    (fun w => match w with 2 => Some "a" | _ => None end%N)
    (fun _ => None).

Definition small_hierarchy : hierarchy :=
  Node 1%N [Node 2%N []; Node 3%N []].

(** Symbolic names of a few key symbols (X11/keysymdef.h). *)
Definition sample_keysym_names (ks : KeySym) : option string :=
  match ks with
  | 0x20 => Some "space"
  | 0x68 => Some "h"
  | 0x69 => Some "i"
  | 0xff09 => Some "Tab"
  | 0xff0d => Some "Return"
  | _ => None
  end%N.

Definition key_h : XKeyEvent := mkXKeyEvent ["h"%char] 0x68%N.
Definition key_i : XKeyEvent := mkXKeyEvent ["i"%char] 0x69%N.
Definition key_Return : XKeyEvent := mkXKeyEvent [] 0xff0d%N.

(** A key the mapping has neither characters nor a key symbol for. *)
Definition key_unmapped : XKeyEvent := mkXKeyEvent [] 0%N.

(** Control with space: the lookup yields the single character NUL. *)
Definition key_control_space : XKeyEvent := mkXKeyEvent [NUL] 0x20%N.

(** A key bound to a string of [KEY_BUFF_SIZE] characters. *)
Definition key_bound_to_256_chars : XKeyEvent :=
  mkXKeyEvent (repeat "a"%char KEY_BUFF_SIZE) 0x61%N.

Definition three_key_presses : list arrival :=
  [ mkArrival (KeyPress key_h) sample_server TimeFails true;
    mkArrival (KeyPress key_i) sample_server TimeFails true;
    mkArrival (KeyPress key_Return) sample_server TimeFails true ].

Definition focus_on (w : Window) : arrival :=
  mkArrival (FocusIn w) sample_server (LocalTime "2024-05-01 12:00:00") true.

Definition process_after_hi : process :=
  mkProcess "hi" ("Keylogger started" ++ LF ++ "hi") (repeat NUL KEY_BUFF_SIZE).

(** Windows 1 and 2 report each other as child. *)
Definition cyclic_server : XServer :=
  mkXServer 1%N
    (fun w => match w with 1 => Some [2] | 2 => Some [1] | _ => Some [] end%N)
    (fun _ => None)
    (fun _ => None).

Definition sample_XOpenDisplay (hostname : string) : option XServer :=
  if String.eqb hostname ":0" then Some sample_server else None.

(** A focus-in, an ignored event, two key presses, a focus-in on an
    untitled window, a key press. *)
Definition mixed_arrivals : list arrival :=
  [ focus_on 10%N;
    mkArrival OtherEvent sample_server TimeFails true;
    mkArrival (KeyPress key_h) sample_server TimeFails true;
    mkArrival (KeyPress key_i) sample_server TimeFails true;
    focus_on 21%N;
    mkArrival (KeyPress key_Return) sample_server TimeFails true ].

(** A key press that arrives when the log cannot be opened. *)
Definition log_unopenable : arrival :=
  mkArrival (KeyPress key_i) sample_server TimeFails false.

(** A symbolic name of 300 characters. *)
Definition long_keysym_names (ks : KeySym) : option string :=
  Some (string_of_list_ascii (repeat "k"%char 300)).

(* ================================================================== *)
(** ** Facts about strings *)

Lemma prefix_app (d s : string) :
  String.prefix d s = true <-> exists post, s = d ++ post.
Proof.
  revert s; induction d as [|c d IH]; intros s; simpl.
  - split; [intros _; exists s; reflexivity | intros _; destruct s; reflexivity].
  - destruct s as [|c' s].
    + split; [discriminate | intros [post H]; discriminate].
    + simpl. destruct (Ascii.ascii_dec c c') as [->|Hne].
      * rewrite IH. split; intros [post H]; exists post.
        -- now rewrite H.
        -- now inversion H.
      * split; [discriminate | intros [post H]; inversion H; subst; contradiction].
Qed.

Lemma strstr_unfold (n d : string) :
  strstr n d =
  if String.prefix d n then Some n
  else match n with
       | EmptyString => None
       | String _ rest => strstr rest d
       end.
Proof. destruct n; reflexivity. Qed.

Lemma strstr_contains (n d : string) :
  (exists s, strstr n d = Some s) <-> contains n d.
Proof.
  induction n as [|c n IH]; rewrite strstr_unfold.
  - destruct (String.prefix d "") eqn:E.
    + split; [intros _ | intros _; exists ""; reflexivity].
      apply prefix_app in E as [post E]. exists "", post. exact E.
    + split; [intros [s H]; discriminate|].
      intros [pre [post H]]. destruct pre; simpl in H.
      * assert (String.prefix d "" = true) by (apply prefix_app; eauto). congruence.
      * discriminate.
  - destruct (String.prefix d (String c n)) eqn:E.
    + split; [intros _ | intros _; exists (String c n); reflexivity].
      apply prefix_app in E as [post E]. exists "", post. exact E.
    + rewrite IH. split.
      * intros [pre [post H]]. exists (String c pre), post. simpl. now rewrite H.
      * intros [pre [post H]]. destruct pre as [|c' pre]; simpl in H.
        -- assert (String.prefix d (String c n) = true) by (apply prefix_app; eauto).
           congruence.
        -- inversion H. exists pre, post. reflexivity.
Qed.

Lemma is_empty_true (s : string) : is_empty s = true <-> s = "".
Proof. destruct s; simpl; split; congruence. Qed.

Lemma is_empty_false (s : string) : is_empty s = false <-> s <> "".
Proof. destruct s; simpl; split; congruence. Qed.

Lemma nameMatchesDesignated_spec (n d : string) :
  nameMatchesDesignated (Some n) (Some d) = true
  <-> n <> "" /\ d <> "" /\ contains n d.
Proof.
  unfold nameMatchesDesignated.
  destruct (is_empty n) eqn:En.
  - apply is_empty_true in En. split; [discriminate | intros [H _]; contradiction].
  - apply is_empty_false in En.
    destruct (is_empty d) eqn:Ed.
    + apply is_empty_true in Ed. split; [discriminate | intros [_ [H _]]; contradiction].
    + apply is_empty_false in Ed.
      destruct (strstr n d) eqn:Es.
      * split; [intros _ | reflexivity].
        repeat split; auto. apply strstr_contains. eauto.
      * split; [discriminate|]. intros [_ [_ H]].
        apply strstr_contains in H as [s H]. congruence.
Qed.

Lemma contains_nonempty (n d : string) : d <> "" -> contains n d -> n <> "".
Proof.
  intros Hd [pre [post H]] ->.
  destruct pre; simpl in H; [|discriminate].
  destruct d; [contradiction | discriminate].
Qed.

(** For a non-empty designator the walker's test is substring containment
    of the resolved name. *)
Lemma accepts_name_contains (disp : XServer) (d : string) (w : Window) :
  d <> "" -> (accepts disp (Some d) w = true <-> name_contains disp d w).
Proof.
  intros Hd. unfold accepts, name_contains.
  destruct (getWindowName disp w) as [n|].
  - rewrite nameMatchesDesignated_spec. split.
    + intros [_ [_ H]]. eauto.
    + intros [n' [E H]]. inversion E; subst n'.
      repeat split; auto. eapply contains_nonempty; eauto.
  - simpl. split; [discriminate | intros [n [E _]]; discriminate].
Qed.

Lemma accepts_empty_designator (disp : XServer) (w : Window) :
  accepts disp (Some "") w = false.
Proof.
  unfold accepts, nameMatchesDesignated.
  destruct (getWindowName disp w) as [n|]; [destruct (is_empty n)|]; reflexivity.
Qed.

(* ================================================================== *)
(** ** Facts about hierarchies *)

Lemma hierarchy_ind (P : hierarchy -> Prop) :
  (forall w kids, Forall P kids -> P (Node w kids)) -> forall t, P t.
Proof.
  intros step. fix IH 1. intros [w kids]. apply step.
  induction kids as [|k kids IHk]; constructor; [apply IH | exact IHk].
Qed.

Lemma windows_eqb_eq (l1 l2 : list Window) :
  windows_eqb l1 l2 = true <-> l1 = l2.
Proof.
  revert l2; induction l1 as [|a l1 IH]; intros [|b l2]; simpl;
    try (split; congruence).
  rewrite andb_true_iff, N.eqb_eq, IH. split.
  - intros [-> ->]; reflexivity.
  - intros E; inversion E; auto.
Qed.

Lemma mirrors_node (disp : XServer) (w : Window) (kids : list hierarchy) :
  mirrors disp (Node w kids) = true ->
  reported_children disp w = map handle kids
  /\ Forall (fun k => mirrors disp k = true) kids.
Proof.
  simpl. rewrite andb_true_iff, windows_eqb_eq, forallb_forall, Forall_forall.
  auto.
Qed.

Lemma height_subwindow (k : hierarchy) (kids : list hierarchy) :
  In k kids -> height k <= list_max (map height kids).
Proof.
  induction kids as [|k' kids IH]; simpl; [contradiction|].
  intros [->|Hin]; [lia | specialize (IH Hin); lia].
Qed.

Lemma map_handle_nil (kids : list hierarchy) :
  List.length (map handle kids) = 0 -> kids = [].
Proof. destruct kids; simpl; [reflexivity | discriminate]. Qed.

Lemma walked_nil disp designated st : walked disp designated [] st = st.
Proof. destruct st; unfold walked; simpl. now rewrite !app_nil_r. Qed.

Lemma walked_app disp designated ws1 ws2 st :
  walked disp designated (ws1 ++ ws2) st
  = walked disp designated ws2 (walked disp designated ws1 st).
Proof. unfold walked; simpl. now rewrite filter_app, !app_assoc. Qed.

Lemma selected_nil st : selected [] st = st.
Proof. destruct st; unfold selected; simpl. now rewrite app_nil_r. Qed.

Lemma selected_app ws1 ws2 st :
  selected (ws1 ++ ws2) st = selected ws2 (selected ws1 st).
Proof. unfold selected; simpl. now rewrite map_app, app_assoc. Qed.

Section Walk.
Variable disp : XServer.
Variable designated : option string.

(** One turn of the loop body, before the recursive call. *)
Lemma loop_body_walked (child : Window) (st : client) :
  match getWindowName disp child with
  | Some _ =>
      if nameMatchesDesignated (getWindowName disp child) designated
      then append_match child (looked_up child st)
      else looked_up child st
  | None => looked_up child st
  end = walked disp designated [child] st.
Proof.
  unfold walked. cbn [filter]. unfold accepts.
  destruct (getWindowName disp child) as [n|].
  - destruct (nameMatchesDesignated (Some n) designated);
      unfold append_match, looked_up;
      cbn [matched_windows name_lookups input_selected];
      [reflexivity | now rewrite app_nil_r].
  - change (nameMatchesDesignated None designated) with false.
    unfold looked_up. now rewrite app_nil_r.
Qed.

Lemma match_children_walked (descend : Window -> client -> option client)
    (kids : list hierarchy) :
  Forall (fun k => forall st,
            descend (handle k) st
            = Some (walked disp designated (descendants k) st)) kids ->
  forall st,
    match_children disp descend designated (map handle kids) st
    = Some (walked disp designated
              (flat_map (fun k => handle k :: descendants k) kids) st).
Proof.
  induction 1 as [|k kids Hk _ IH]; intros st; simpl.
  - now rewrite walked_nil.
  - rewrite loop_body_walked, Hk, IH.
    f_equal. change (handle k :: descendants k ++ ?l)%list
      with (([handle k] ++ descendants k) ++ l)%list.
    now rewrite !walked_app.
Qed.

(** Enough fuel: the walker returns, having visited every descendant in
    pre-order and kept those it accepts. *)
Lemma find_matched_windows_walked (t : hierarchy) :
  mirrors disp t = true ->
  forall fuel, height t <= fuel ->
  forall st,
    find_matched_windows disp fuel (handle t) designated st
    = Some (walked disp designated (descendants t) st).
Proof.
  induction t as [w kids IH] using hierarchy_ind.
  intros Hm fuel Hfuel st.
  apply mirrors_node in Hm as [Hkids Hall].
  destruct fuel as [|fuel]; [simpl in Hfuel; lia|].
  simpl in Hfuel. simpl.
  unfold reported_children in Hkids.
  destruct (XQueryTree disp w) as [children|].
  - subst children.
    destruct (List.length (map handle kids) =? 0)%nat eqn:E.
    + apply Nat.eqb_eq, map_handle_nil in E. subst kids.
      simpl. now rewrite walked_nil.
    + apply match_children_walked.
      rewrite Forall_forall in *. intros k Hin st'.
      apply IH; auto.
      pose proof (height_subwindow k kids Hin). lia.
  - symmetry in Hkids. apply map_eq_nil in Hkids. subst kids.
    simpl. now rewrite walked_nil.
Qed.

Lemma select_children_selected (descend : Window -> client -> option client)
    (kids : list hierarchy) :
  Forall (fun k => forall st,
            descend (handle k) st = Some (selected (descendants k) st)) kids ->
  forall st,
    select_children descend (map handle kids) st
    = Some (selected (flat_map (fun k => handle k :: descendants k) kids) st).
Proof.
  induction 1 as [|k kids Hk _ IH]; intros st; simpl.
  - now rewrite selected_nil.
  - change (XSelectInput (handle k) (N.lor KeyPressMask FocusChangeMask) st)
      with (selected [handle k] st).
    rewrite Hk, IH. f_equal.
    change (handle k :: descendants k ++ ?l)%list
      with (([handle k] ++ descendants k) ++ l)%list.
    now rewrite !selected_app.
Qed.

Lemma recursive_select_selected (t : hierarchy) :
  mirrors disp t = true ->
  forall fuel, height t <= fuel ->
  forall st,
    recursive_select disp fuel (handle t) st
    = Some (selected (descendants t) st).
Proof.
  induction t as [w kids IH] using hierarchy_ind.
  intros Hm fuel Hfuel st.
  apply mirrors_node in Hm as [Hkids Hall].
  destruct fuel as [|fuel]; [simpl in Hfuel; lia|].
  simpl in Hfuel. simpl.
  unfold reported_children in Hkids.
  destruct (XQueryTree disp w) as [children|].
  - subst children.
    destruct (List.length (map handle kids) =? 0)%nat eqn:E.
    + apply Nat.eqb_eq, map_handle_nil in E. subst kids.
      simpl. now rewrite selected_nil.
    + apply select_children_selected.
      rewrite Forall_forall in *. intros k Hin st'.
      apply IH; auto.
      pose proof (height_subwindow k kids Hin). lia.
  - symmetry in Hkids. apply map_eq_nil in Hkids. subst kids.
    simpl. now rewrite selected_nil.
Qed.
End Walk.

(* ================================================================== *)
(** ** Facts about the selector *)

Lemma select_matched_selected (st : client) :
  select_matched st = selected (matched_windows st) st.
Proof.
  unfold select_matched. generalize (matched_windows st) as ws.
  intros ws; revert st. induction ws as [|w ws IH]; intros st; cbn [fold_left].
  - now rewrite selected_nil.
  - rewrite IH.
    change (XSelectInput w (N.lor KeyPressMask FocusChangeMask) st)
      with (selected [w] st).
    now rewrite <- selected_app.
Qed.

Lemma monitoring_selected (ws : list Window) (st : client) :
  monitoring (selected ws st) = (monitoring st ++ ws)%list.
Proof.
  unfold monitoring, selected; simpl.
  rewrite filter_app, map_app. f_equal.
  induction ws as [|w ws IH]; simpl; [reflexivity | now rewrite IH].
Qed.

Lemma monitoring_walked disp designated ws st :
  monitoring (walked disp designated ws st) = monitoring st.
Proof. reflexivity. Qed.

Lemma filter_nonempty_existsb {A} (f : A -> bool) (l : list A) :
  (0 <? List.length (filter f l))%nat = existsb f l.
Proof.
  induction l as [|a l IH]; simpl; [reflexivity|].
  destruct (f a); simpl; [reflexivity | exact IH].
Qed.

Lemma descendants_nil (t : hierarchy) :
  descendants t = [] <-> subwindows_of t = [].
Proof.
  destruct t as [w [|k kids]]; simpl; split; congruence.
Qed.

(** What [snoop_windows] does on a hierarchy, from the client's initial
    state: the flag tells whether some descendant is accepted, and input is
    selected on the accepted descendants if there are any, on every
    descendant otherwise. *)
Lemma snoop_windows_on_hierarchy (disp : XServer) (t : hierarchy)
    (designated : option string) (fuel : nat) :
  mirrors disp t = true ->
  handle t = DefaultRootWindow disp ->
  height t <= fuel ->
  let ws := descendants t in
  let found := existsb (accepts disp designated) ws in
  exists st,
    snoop_windows disp fuel designated initial_client = Some (found, st)
    /\ matched_windows st = filter (accepts disp designated) ws
    /\ name_lookups st = ws
    /\ monitoring st = if found then filter (accepts disp designated) ws else ws.
Proof.
  intros Hm Hroot Hfuel ws found.
  unfold snoop_windows. rewrite <- Hroot.
  rewrite (find_matched_windows_walked disp designated t Hm fuel Hfuel).
  set (st1 := walked disp designated (descendants t) initial_client).
  assert (Hmatched : matched_windows st1 = filter (accepts disp designated) ws)
    by reflexivity.
  unfold matched_count. rewrite Hmatched, filter_nonempty_existsb.
  fold found. destruct found eqn:Hfound.
  - eexists; split; [reflexivity|].
    rewrite select_matched_selected, monitoring_selected, Hmatched.
    repeat split; reflexivity.
  - destruct t as [w kids]. apply mirrors_node in Hm as [Hkids Hall].
    unfold reported_children in Hkids. simpl handle.
    destruct (XQueryTree disp w) as [children|].
    + subst children.
      destruct (0 <? List.length (map handle kids))%nat eqn:E.
      * rewrite (select_children_selected
                   (recursive_select disp fuel) kids).
        -- eexists; split; [reflexivity|].
           rewrite monitoring_selected. repeat split; reflexivity.
        -- rewrite Forall_forall in *. intros k Hin st'.
           apply recursive_select_selected; auto.
           pose proof (height_subwindow k kids Hin). simpl in Hfuel. lia.
      * apply Nat.ltb_ge in E.
        assert (kids = []) by (apply map_handle_nil; lia). subst kids.
        eexists; split; [reflexivity|]. repeat split; reflexivity.
    + symmetry in Hkids. apply map_eq_nil in Hkids. subst kids.
      eexists; split; [reflexivity|]. repeat split; reflexivity.
Qed.

(** Whatever the hierarchy, a walk that returns has visited some list of
    windows in order, the first child first. *)
Lemma match_children_some (disp : XServer) (designated : option string)
    (descend : Window -> client -> option client) :
  (forall w st st', descend w st = Some st' ->
                    exists ws, st' = walked disp designated ws st) ->
  forall children st st',
    match_children disp descend designated children st = Some st' ->
    exists ws, st' = walked disp designated ws st
               /\ (children <> [] -> ws <> []).
Proof.
  intros Hd. induction children as [|c cs IH]; intros st st'; simpl.
  - intros E; inversion E; subst. exists []. rewrite walked_nil. auto.
  - rewrite loop_body_walked.
    destruct (descend c (walked disp designated [c] st)) as [st3|] eqn:E3;
      [|discriminate].
    intros E. apply Hd in E3 as [ws1 ->]. apply IH in E as [ws2 [-> _]].
    exists (([c] ++ ws1) ++ ws2)%list. rewrite !walked_app.
    split; [reflexivity | intros _; discriminate].
Qed.

Lemma find_matched_windows_some (disp : XServer) (designated : option string)
    (fuel : nat) :
  forall root st st',
    find_matched_windows disp fuel root designated st = Some st' ->
    exists ws, st' = walked disp designated ws st
               /\ (reported_children disp root <> [] -> ws <> []).
Proof.
  induction fuel as [|fuel IH]; intros root st st'; simpl; [discriminate|].
  unfold reported_children.
  destruct (XQueryTree disp root) as [children|].
  - destruct (List.length children =? 0)%nat eqn:E.
    + intros H; inversion H; subst. exists []. rewrite walked_nil.
      apply Nat.eqb_eq in E. destruct children; [auto | discriminate].
    + apply match_children_some.
      intros w st0 st0' H. apply IH in H as [ws [H _]]. eauto.
  - intros H; inversion H; subst. exists []. rewrite walked_nil. auto.
Qed.

Lemma walked_lookups_fixed disp designated ws st :
  walked disp designated ws st = st -> ws = [].
Proof.
  intros H. apply (f_equal name_lookups) in H. simpl in H.
  apply (f_equal (@List.length Window)) in H.
  rewrite length_app in H. destruct ws; [reflexivity | simpl in H; lia].
Qed.

(* ================================================================== *)
(** ** Facts about the scratch buffer *)

Lemma append_assoc (a b c : string) : ((a ++ b) ++ c = a ++ (b ++ c))%string.
Proof. induction a as [|x a IH]; simpl; [reflexivity | now rewrite IH]. Qed.

Lemma append_empty_r (a : string) : (a ++ "")%string = a.
Proof. induction a as [|x a IH]; simpl; [reflexivity | now rewrite IH]. Qed.

Lemma overwrite_length (buf chars : list ascii) :
  List.length chars <= List.length buf ->
  List.length (overwrite buf chars) = List.length buf.
Proof.
  intros H. unfold overwrite. rewrite length_app, length_skipn. lia.
Qed.

Lemma store_length (buf buf' : list ascii) (i : nat) (c : ascii) :
  store buf i c = Some buf' -> List.length buf' = List.length buf.
Proof.
  unfold store. destruct (i <? List.length buf)%nat eqn:E; [|discriminate].
  apply Nat.ltb_lt in E. intros H.
  assert (E' : buf' = (firstn i buf ++ c :: skipn (S i) buf)%list)
    by congruence.
  rewrite E'.
  change (c :: skipn (S i) buf) with ([c] ++ skipn (S i) buf)%list.
  rewrite !length_app, length_firstn, length_skipn. simpl. lia.
Qed.

Lemma store_after_overwrite (buf chars : list ascii) :
  List.length chars < List.length buf ->
  store (overwrite buf chars) (List.length chars) NUL
  = Some (chars ++ NUL :: skipn (S (List.length chars)) buf)%list.
Proof.
  intros H. unfold store.
  rewrite overwrite_length by lia.
  apply Nat.ltb_lt in H. rewrite H. unfold overwrite. f_equal.
  rewrite firstn_app, firstn_all, Nat.sub_diag, firstn_O, app_nil_r.
  f_equal. f_equal.
  rewrite skipn_app, (skipn_all2 (n := S (List.length chars)) chars) by lia.
  replace (S (List.length chars) - List.length chars) with 1 by lia.
  rewrite skipn_skipn. reflexivity.
Qed.

Lemma c_str_before_nul (chars rest : list ascii) :
  c_str (chars ++ NUL :: rest) = c_str chars.
Proof.
  induction chars as [|c chars IH]; simpl; [reflexivity|].
  destruct (Ascii.eqb c NUL); [reflexivity | now rewrite IH].
Qed.

Lemma c_str_nul_free (chars : list ascii) :
  nul_free chars = true -> c_str chars = string_of_list_ascii chars.
Proof.
  induction chars as [|c chars IH]; simpl; [reflexivity|].
  rewrite andb_true_iff, negb_true_iff. intros [-> H]. now rewrite IH.
Qed.

Lemma snprintf_c_str (buf : list ascii) (size : nat) (text : string) :
  c_str (snprintf buf size text)
  = c_str (firstn (size - 1) (list_ascii_of_string text)).
Proof.
  unfold snprintf, overwrite. rewrite <- app_assoc. simpl.
  apply c_str_before_nul.
Qed.

Lemma snprintf_length (buf : list ascii) (size : nat) (text : string) :
  0 < size -> size <= List.length buf ->
  List.length (snprintf buf size text) = List.length buf.
Proof.
  intros H0 H. unfold snprintf. apply overwrite_length.
  rewrite length_app. simpl.
  pose proof (firstn_le_length (size - 1) (list_ascii_of_string text)). lia.
Qed.

(* ================================================================== *)
(** ** Facts about the translator *)

Section TranslatorFacts.
Variable XKeysymToString : KeySym -> option string.

(** The translator writes outside [key_buff] exactly when the mapping
    holds [KEY_BUFF_SIZE] characters or more for the event; otherwise it
    returns, the array keeps its size and the fragment does not depend on
    what the array held. *)
Lemma TranslateKeyCode_cases (kb : list ascii) (ev : XKeyEvent) :
  List.length kb = KEY_BUFF_SIZE ->
  (KEY_BUFF_SIZE <= List.length (xk_translation ev)
   /\ TranslateKeyCode XKeysymToString kb ev = None)
  \/ (List.length (xk_translation ev) < KEY_BUFF_SIZE
      /\ exists kb', TranslateKeyCode XKeysymToString kb ev = Some kb'
                     /\ List.length kb' = KEY_BUFF_SIZE
                     /\ c_str kb' = fragment_text XKeysymToString ev).
Proof.
  intros Hkb. unfold TranslateKeyCode, XLookupString.
  destruct (Nat.le_gt_cases KEY_BUFF_SIZE (List.length (xk_translation ev)))
    as [Hbig|Hsmall].
  - left. split; [exact Hbig|].
    unfold store. rewrite overwrite_length, length_firstn, Hkb.
    + rewrite Nat.min_l by exact Hbig. now rewrite Nat.ltb_irrefl.
    + rewrite length_firstn. lia.
  - right. split; [exact Hsmall|].
    rewrite (firstn_all2 (n := KEY_BUFF_SIZE) (xk_translation ev)) by lia.
    rewrite store_after_overwrite by lia.
    assert (Hlen : List.length
                     (xk_translation ev
                      ++ NUL :: skipn (S (List.length (xk_translation ev))) kb)
                   = KEY_BUFF_SIZE).
    { change (NUL :: ?l) with ([NUL] ++ l)%list.
      rewrite !length_app, length_skipn. simpl. lia. }
    unfold fragment_text.
    destruct (xk_translation ev) as [|c chars] eqn:Etr.
    + change (List.length (@nil ascii) =? 0)%nat with true. cbv iota.
      unfold symbolic_text.
      destruct (XKeysymToString (xk_keysym ev)) as [tmp|];
        (eexists; split; [reflexivity|]; split;
         [rewrite snprintf_length;
          [exact Hlen | unfold KEY_BUFF_SIZE; lia | rewrite Hlen; lia]
         | apply snprintf_c_str]).
    + change (List.length (c :: chars) =? 0)%nat with false. cbv iota.
      eexists; split; [reflexivity|]. split; [exact Hlen|].
      apply c_str_before_nul.
Qed.

(** The count the lookup returns never exceeds the capacity passed, and
    reaches it for a long enough translation. *)
Lemma XLookupString_count (ev : XKeyEvent) (buffer : list ascii) (n : nat) :
  fst (fst (XLookupString ev buffer n))
  = Nat.min n (List.length (xk_translation ev)).
Proof. unfold XLookupString; simpl. apply length_firstn. Qed.

Lemma fragment_cases (kb : list ascii) (ev : XKeyEvent) :
  List.length kb = KEY_BUFF_SIZE ->
  fragment XKeysymToString kb ev
  = if (List.length (xk_translation ev) <? KEY_BUFF_SIZE)%nat
    then Some (fragment_text XKeysymToString ev)
    else None.
Proof.
  intros Hkb. unfold fragment.
  destruct (TranslateKeyCode_cases kb ev Hkb) as [[H E]|[H [kb' [E [_ Hc]]]]];
    rewrite E; simpl.
  - apply Nat.ltb_ge in H. now rewrite H.
  - apply Nat.ltb_lt in H. now rewrite H, Hc.
Qed.

(** The fragment is the same whatever the array held before the call. *)
Lemma fragment_stateless (kb1 kb2 : list ascii) (ev : XKeyEvent) :
  List.length kb1 = KEY_BUFF_SIZE -> List.length kb2 = KEY_BUFF_SIZE ->
  fragment XKeysymToString kb1 ev = fragment XKeysymToString kb2 ev.
Proof. intros H1 H2. now rewrite !fragment_cases. Qed.
End TranslatorFacts.

(* ================================================================== *)
(** ** Facts about the event loop *)

Section LoopFacts.
Variable XKeysymToString : KeySym -> option string.

Lemma iteration_key_press (p : process) (a : arrival) (f : string) :
  List.length (key_buff p) = KEY_BUFF_SIZE ->
  key_press_of XKeysymToString (key_buff p) a f ->
  exists kb',
    iteration XKeysymToString p a
    = Running (mkProcess (stdout p ++ f) (keylog p ++ f) kb')
    /\ List.length kb' = KEY_BUFF_SIZE.
Proof.
  intros Hlen [Hopen [xk [Hev Hf]]].
  unfold iteration. rewrite Hopen, Hev. simpl negb. cbv iota.
  unfold fragment in Hf.
  destruct (TranslateKeyCode_cases XKeysymToString (key_buff p) xk Hlen)
    as [[_ E]|[_ [kb' [E [Hlen' _]]]]]; rewrite E in Hf |- *;
    [discriminate|].
  simpl in Hf. injection Hf as Hf. rewrite Hf. eauto.
Qed.

Lemma event_loop_key_presses (kb0 : list ascii) (arrivals : list arrival)
    (fs : list string) :
  List.length kb0 = KEY_BUFF_SIZE ->
  Forall2 (key_press_of XKeysymToString kb0) arrivals fs ->
  forall p, List.length (key_buff p) = KEY_BUFF_SIZE ->
  exists p',
    event_loop XKeysymToString p arrivals = Running p'
    /\ keylog p' = (keylog p ++ join fs)%string
    /\ stdout p' = (stdout p ++ join fs)%string.
Proof.
  intros Hkb0. induction 1 as [|a f arrivals fs Ha _ IH]; intros p Hlen.
  - exists p. simpl. now rewrite !append_empty_r.
  - assert (Ha' : key_press_of XKeysymToString (key_buff p) a f).
    { destruct Ha as [Hopen [xk [Hev Hf]]]. split; [exact Hopen|].
      exists xk. split; [exact Hev|].
      now rewrite (fragment_stateless XKeysymToString (key_buff p) kb0). }
    destruct (iteration_key_press p a f Hlen Ha') as [kb' [Hit Hlen']].
    cbn [event_loop]. rewrite Hit.
    destruct (IH (mkProcess (stdout p ++ f) (keylog p ++ f) kb') Hlen')
      as [p' [Hrun [Hlog Hout]]].
    exists p'. split; [exact Hrun|].
    simpl in Hlog, Hout. cbn [join fold_right].
    now rewrite Hlog, Hout, !append_assoc.
Qed.
End LoopFacts.

Lemma list_ascii_of_string_app (a b : string) :
  list_ascii_of_string (a ++ b)
  = (list_ascii_of_string a ++ list_ascii_of_string b)%list.
Proof. induction a as [|c a IH]; simpl; [reflexivity | now rewrite IH]. Qed.

Lemma list_ascii_of_string_length (a : string) :
  List.length (list_ascii_of_string a) = String.length a.
Proof. induction a as [|c a IH]; simpl; [reflexivity | now rewrite IH]. Qed.


Lemma nul_free_firstn (n : nat) (chars : list ascii) :
  nul_free chars = true -> nul_free (firstn n chars) = true.
Proof.
  revert n; induction chars as [|c chars IH]; intros [|n]; simpl; auto.
  rewrite !andb_true_iff. intros [Hc H]. auto.
Qed.


(* ================================================================== *)
(** ** The model on the sample data *)

Example sample_mirrors : mirrors sample_server sample_hierarchy = true.
Proof. reflexivity. Qed.

Example sample_preorder :
  descendants sample_hierarchy = [10; 11; 20; 21; 22; 30]%N.
Proof. reflexivity. Qed.

Example sample_targeted :
  option_map (fun r => (fst r, monitoring (snd r)))
    (snoop_windows sample_server 4 (Some "irefox") initial_client)
  = Some (true, [10; 11; 22]%N).
Proof. reflexivity. Qed.

Example sample_case_sensitive :
  option_map (fun r => (fst r, monitoring (snd r)))
    (snoop_windows sample_server 4 (Some "Firefox") initial_client)
  = Some (true, [10; 22]%N).
Proof. reflexivity. Qed.

Example sample_fallback :
  option_map (fun r => (fst r, monitoring (snd r)))
    (snoop_windows sample_server 4 (Some "emacs") initial_client)
  = Some (false, [10; 11; 20; 21; 22; 30]%N).
Proof. reflexivity. Qed.

Example sample_out_of_fuel :
  snoop_windows sample_server 3 (Some "irefox") initial_client = None.
Proof. reflexivity. Qed.

Example sample_fragments :
  map (fragment sample_keysym_names (repeat NUL KEY_BUFF_SIZE))
      [key_h; key_Return; key_unmapped; key_control_space;
       key_bound_to_256_chars]
  = [Some "h"; Some "<Return>"; Some "<UnknownKey>"; Some ""; None].
Proof. vm_compute. reflexivity. Qed.

(* ================================================================== *)
(** ** Target selection *)

Ltac distinct_handles :=
  repeat (constructor;
          [ simpl; intros H;
            repeat (destruct H as [H|H]; [discriminate H|]); exact H | ]);
  constructor.

(** C1: for every hierarchy and every designator [d], if some window's
    resolved name contains [d] (the empty designator being contained in no
    name), then [snoop_windows] reports a match and the monitoring set is
    exactly the set of the windows whose resolved name contains [d]: every
    such window is monitored and no other is.  Containing [d] is what the
    walker tests at each window. *)
Theorem C1_targeted_capture
    (disp : XServer) (t : hierarchy) (d : string) (fuel : nat) :
  mirrors disp t = true ->
  handle t = DefaultRootWindow disp ->
  height t <= fuel ->
  (exists w, In w (descendants t) /\ name_matches disp d w) ->
  (exists st,
     snoop_windows disp fuel (Some d) initial_client = Some (true, st)
     /\ forall w, In w (monitoring st)
                  <-> In w (descendants t) /\ name_matches disp d w)
  /\ (forall w, name_matches disp d w <-> accepts disp (Some d) w = true).
Proof.
  intros Hm Hroot Hfuel [w0 [Hin0 Hname0]].
  assert (Htest : forall w,
             name_matches disp d w <-> accepts disp (Some d) w = true).
  { intros w. unfold name_matches. split.
    - intros [Hd Hc]. now apply accepts_name_contains.
    - intros Hacc. destruct (string_dec d "") as [->|Hd].
      + now rewrite accepts_empty_designator in Hacc.
      + split; [exact Hd | now apply accepts_name_contains]. }
  split; [|exact Htest].
  destruct (snoop_windows_on_hierarchy disp t (Some d) fuel Hm Hroot Hfuel)
    as [st [Hs [_ [_ Hmon]]]].
  assert (Hfound : existsb (accepts disp (Some d)) (descendants t) = true).
  { apply existsb_exists. exists w0. split; [exact Hin0 | now apply Htest]. }
  rewrite Hfound in Hs, Hmon.
  exists st. split; [exact Hs|].
  intros w. rewrite Hmon, filter_In, Htest. reflexivity.
Qed.

Lemma C1_targeted_capture_witness :
  mirrors sample_server sample_hierarchy = true
  /\ handle sample_hierarchy = DefaultRootWindow sample_server
  /\ height sample_hierarchy <= 4
  /\ exists st,
       snoop_windows sample_server 4 (Some "irefox") initial_client
       = Some (true, st)
       /\ forall w, In w (monitoring st)
                    <-> In w (descendants sample_hierarchy)
                        /\ name_matches sample_server "irefox" w.
Proof.
  split; [reflexivity|]. split; [reflexivity|]. split; [simpl; lia|].
  apply (C1_targeted_capture sample_server sample_hierarchy "irefox" 4);
    [reflexivity | reflexivity | simpl; lia |].
  exists 22%N. split; [simpl; tauto|].
  split; [discriminate|].
  exists "Firefox". split; [reflexivity|]. exists "F", "". reflexivity.
Defined.

(** C2: for every hierarchy and every designator [d] such that no window's
    resolved name contains [d], and for the empty designator, the
    monitoring set is every window of the hierarchy (every descendant of
    the root, in traversal order); so it is empty only when the hierarchy
    is: when the root has no child. *)
Theorem C2_fallback_monitors_every_window
    (disp : XServer) (t : hierarchy) (d : string) (fuel : nat) :
  mirrors disp t = true ->
  handle t = DefaultRootWindow disp ->
  height t <= fuel ->
  (d = "" \/ forall w, In w (descendants t) -> ~ name_contains disp d w) ->
  exists st,
    snoop_windows disp fuel (Some d) initial_client = Some (false, st)
    /\ monitoring st = descendants t
    /\ (monitoring st = [] <-> subwindows_of t = []).
Proof.
  intros Hm Hroot Hfuel Hnone.
  destruct (snoop_windows_on_hierarchy disp t (Some d) fuel Hm Hroot Hfuel)
    as [st [Hs [_ [_ Hmon]]]].
  assert (Hfound : existsb (accepts disp (Some d)) (descendants t) = false).
  { destruct (existsb _ _) eqn:E; [|reflexivity].
    apply existsb_exists in E as [w [Hin Hacc]].
    destruct (string_dec d "") as [->|Hd].
    - now rewrite accepts_empty_designator in Hacc.
    - destruct Hnone as [->|Hnone]; [contradiction|].
      apply (accepts_name_contains disp d w Hd) in Hacc.
      now apply Hnone in Hacc. }
  rewrite Hfound in Hs, Hmon.
  exists st. split; [exact Hs|]. split; [exact Hmon|].
  rewrite Hmon. apply descendants_nil.
Qed.

Lemma C2_fallback_witness :
  mirrors small_server small_hierarchy = true
  /\ handle small_hierarchy = DefaultRootWindow small_server
  /\ height small_hierarchy <= 2
  /\ exists st,
       snoop_windows small_server 2 (Some "") initial_client = Some (false, st)
       /\ monitoring st = descendants small_hierarchy
       /\ (monitoring st = [] <-> subwindows_of small_hierarchy = []).
Proof.
  split; [reflexivity|]. split; [reflexivity|]. split; [simpl; lia|].
  apply (C2_fallback_monitors_every_window small_server small_hierarchy "" 2);
    [reflexivity | reflexivity | simpl; lia | left; reflexivity].
Defined.

(* ================================================================== *)
(** ** Name resolution and matching *)

(** C6: name resolution is a two-tier lookup.  The modern title property is
    used when present; a window without it but with a legacy title
    resolves to the legacy value; a window with neither has no name, is
    accepted for no designator and is never appended to the match set. *)
Theorem C6_two_tier_name_lookup (disp : XServer) (w : Window) :
  (forall s, XGetWindowProperty_NET_WM_NAME disp w = Some s ->
             getWindowName disp w = Some s)
  /\ (forall s, XGetWindowProperty_NET_WM_NAME disp w = None ->
                XFetchName disp w = Some s ->
                getWindowName disp w = Some s)
  /\ (XGetWindowProperty_NET_WM_NAME disp w = None ->
      XFetchName disp w = None ->
      getWindowName disp w = None
      /\ forall designated,
           accepts disp designated w = false
           /\ forall fuel root st st',
                find_matched_windows disp fuel root designated st = Some st' ->
                ~ In w (matched_windows st) ->
                ~ In w (matched_windows st')).
Proof.
  split; [|split].
  - intros s Hnet. unfold getWindowName. now rewrite Hnet.
  - intros s Hnet Hlegacy. unfold getWindowName. now rewrite Hnet, Hlegacy.
  - intros Hnet Hlegacy.
    assert (Hnone : getWindowName disp w = None)
      by (unfold getWindowName; now rewrite Hnet, Hlegacy).
    split; [exact Hnone|]. intros designated.
    assert (Hacc : accepts disp designated w = false)
      by (unfold accepts; now rewrite Hnone).
    split; [exact Hacc|].
    intros fuel root st st' Hrun Hnot Hin.
    apply find_matched_windows_some in Hrun as [ws [-> _]].
    simpl in Hin. apply in_app_or in Hin as [Hin|Hin]; [auto|].
    apply filter_In in Hin as [_ Hin]. congruence.
Qed.

Lemma C6_two_tier_name_lookup_witness :
  getWindowName sample_server 10%N = Some "Mozilla Firefox"
  /\ getWindowName sample_server 20%N = Some "xterm"
  /\ getWindowName sample_server 21%N = None
  /\ forall st',
       find_matched_windows sample_server 4 1%N (Some "e") initial_client = Some st' ->
       ~ In 21%N (matched_windows st').
Proof.
  split; [|split; [|split]].
  - apply (proj1 (C6_two_tier_name_lookup sample_server 10%N)). reflexivity.
  - apply (proj1 (proj2 (C6_two_tier_name_lookup sample_server 20%N)));
      reflexivity.
  - apply (proj2 (proj2 (C6_two_tier_name_lookup sample_server 21%N)));
      reflexivity.
  - intros st' Hrun.
    destruct (proj2 (proj2 (C6_two_tier_name_lookup sample_server 21%N))
                eq_refl eq_refl) as [_ Hnever].
    apply (proj2 (Hnever (Some "e")) 4 1%N initial_client st' Hrun).
    simpl. tauto.
Defined.

(** C7: the matching predicate is substring containment on exact
    characters (so case-sensitive), and holds only when both the name and
    the designator are non-empty: the empty designator matches no window,
    an unresolved name never matches; and the traversal goes on past
    unresolved names: it returns having looked up every window of the
    hierarchy and kept exactly the accepted ones. *)
Theorem C7_name_matching (disp : XServer) :
  (forall n d, nameMatchesDesignated (Some n) (Some d) = true
               <-> n <> "" /\ d <> "" /\ contains n d)
  /\ nameMatchesDesignated (Some "Firefox") (Some "firefox") = false
  /\ (forall wname, nameMatchesDesignated wname (Some "") = false)
  /\ (forall w designated,
        getWindowName disp w = None -> accepts disp designated w = false)
  /\ (forall t designated fuel st,
        mirrors disp t = true -> height t <= fuel ->
        exists st',
          find_matched_windows disp fuel (handle t) designated st = Some st'
          /\ name_lookups st' = (name_lookups st ++ descendants t)%list
          /\ matched_windows st'
             = (matched_windows st
                ++ filter (accepts disp designated) (descendants t))%list).
Proof.
  split; [exact nameMatchesDesignated_spec|].
  split; [reflexivity|].
  split; [intros [n|]; simpl; [destruct (is_empty n)|]; reflexivity|].
  split.
  - intros w designated H. unfold accepts. now rewrite H.
  - intros t designated fuel st Hm Hfuel.
    eexists. split; [now apply find_matched_windows_walked|].
    split; reflexivity.
Qed.

Lemma C7_name_matching_witness :
  nameMatchesDesignated (Some "Mozilla Firefox") (Some "Fire") = true
  /\ mirrors sample_server sample_hierarchy = true
  /\ height sample_hierarchy <= 4
  /\ exists st',
       find_matched_windows sample_server 4 (handle sample_hierarchy)
         (Some "Fire") initial_client = Some st'
       /\ name_lookups st' = descendants sample_hierarchy
       /\ matched_windows st' = [10%N; 22%N].
Proof.
  split.
  - apply (proj1 (C7_name_matching sample_server)).
    split; [discriminate|]. split; [discriminate|].
    exists "Mozilla ", "fox". reflexivity.
  - split; [reflexivity|]. split; [simpl; lia|].
    apply (proj2 (proj2 (proj2 (proj2 (C7_name_matching sample_server))))
             sample_hierarchy (Some "Fire") 4 initial_client);
      [reflexivity | simpl; lia].
Defined.

(* ================================================================== *)
(** ** The walker *)

(** C8: the match set lists the accepted windows in pre-order: the walker
    tests a child, then walks that child's own subtree, then goes on to the
    next child. *)
Theorem C8_match_set_in_preorder
    (disp : XServer) (t : hierarchy) (designated : option string) (fuel : nat) :
  mirrors disp t = true ->
  height t <= fuel ->
  (exists st,
     find_matched_windows disp fuel (handle t) designated initial_client = Some st
     /\ matched_windows st = filter (accepts disp designated) (descendants t))
  /\ (forall w k ks,
        descendants (Node w (k :: ks))
        = (handle k :: descendants k ++ descendants (Node w ks))%list).
Proof.
  intros Hm Hfuel. split; [|reflexivity].
  eexists. split; [now apply find_matched_windows_walked|]. reflexivity.
Qed.

Lemma C8_match_set_in_preorder_witness :
  mirrors sample_server sample_hierarchy = true
  /\ height sample_hierarchy <= 4
  /\ exists st,
       find_matched_windows sample_server 4 1%N (Some "irefox") initial_client
       = Some st
       /\ matched_windows st = [10%N; 11%N; 22%N].
Proof.
  split; [reflexivity|]. split; [simpl; lia|].
  exact (proj1 (C8_match_set_in_preorder sample_server sample_hierarchy
                  (Some "irefox") 4 eq_refl
                  (Nat.le_refl 4))).
Defined.

(** C9: on every finite hierarchy in which no handle occurs twice, the
    walker returns, having looked up each window exactly once; a call
    returns without looking at any window exactly when the child query
    fails or reports no child, and a failed query is not an error. *)
Theorem C9_walker_terminates
    (disp : XServer) (t : hierarchy) (designated : option string) (fuel : nat) :
  mirrors disp t = true ->
  NoDup (descendants t) ->
  height t <= fuel ->
  (exists st,
     find_matched_windows disp fuel (handle t) designated initial_client = Some st
     /\ name_lookups st = descendants t
     /\ NoDup (name_lookups st))
  /\ (forall root n st,
        (XQueryTree disp root = None \/ XQueryTree disp root = Some [])
        <-> find_matched_windows disp (S n) root designated st = Some st).
Proof.
  intros Hm Hnodup Hfuel. split.
  - eexists. split; [now apply find_matched_windows_walked|].
    split; [reflexivity | exact Hnodup].
  - intros root n st. split.
    + intros [H|H]; simpl; rewrite H; reflexivity.
    + intros Hrun.
      apply find_matched_windows_some in Hrun as [ws [Hst Hws]].
      symmetry in Hst. apply walked_lookups_fixed in Hst. subst ws.
      unfold reported_children in Hws.
      destruct (XQueryTree disp root) as [[|c cs]|]; auto.
      exfalso. apply Hws; [discriminate | reflexivity].
Qed.

Lemma C9_walker_terminates_witness :
  mirrors sample_server sample_hierarchy = true
  /\ NoDup (descendants sample_hierarchy)
  /\ height sample_hierarchy <= 4
  /\ exists st,
       find_matched_windows sample_server 4 1%N (Some "irefox") initial_client
       = Some st
       /\ name_lookups st = [10%N; 11%N; 20%N; 21%N; 22%N; 30%N]
       /\ NoDup (name_lookups st).
Proof.
  assert (Hd : NoDup (descendants sample_hierarchy)) by distinct_handles.
  split; [reflexivity|]. split; [exact Hd|]. split; [simpl; lia|].
  exact (proj1 (C9_walker_terminates sample_server sample_hierarchy
                  (Some "irefox") 4 eq_refl Hd (Nat.le_refl 4))).
Defined.

(* ================================================================== *)
(** ** The translator *)






(* ================================================================== *)
(** ** The capture loop *)

(** C4: for every sequence of consecutive key presses that translate to
    the fragments [fs], the loop appends the fragments to the log (and to
    the console) one after the other, with nothing in between: neither a
    separator nor a timestamp.  What an event translates to does not
    depend on what [key_buff] holds ([fragment_stateless]). *)
Theorem C4_key_fragments_appended_raw
    (XKeysymToString : KeySym -> option string)
    (p : process) (arrivals : list arrival) (fs : list string) :
  List.length (key_buff p) = KEY_BUFF_SIZE ->
  Forall2 (key_press_of XKeysymToString (key_buff p)) arrivals fs ->
  exists p',
    event_loop XKeysymToString p arrivals = Running p'
    /\ keylog p' = (keylog p ++ join fs)%string
    /\ stdout p' = (stdout p ++ join fs)%string.
Proof.
  intros Hlen Hkeys.
  now apply (event_loop_key_presses XKeysymToString (key_buff p)).
Qed.

Lemma C4_hi_Return_witness :
  List.length (key_buff process_at_start) = KEY_BUFF_SIZE
  /\ exists p',
       event_loop sample_keysym_names process_at_start three_key_presses
       = Running p'
       /\ keylog p' = "Keylogger started" ++ LF ++ "hi<Return>"
       /\ stdout p' = "hi<Return>".
Proof.
  split; [reflexivity|].
  apply (C4_key_fragments_appended_raw sample_keysym_names process_at_start
           three_key_presses ["h"; "i"; "<Return>"]); [reflexivity|].
  repeat constructor; eexists; split; reflexivity.
Defined.

(** C5: on a focus-in event, the log opening: when the focused window's
    resolved name is non-empty, the log gains a line break and the one line
    "[<timestamp>] FocusIn: <name>" (without the handle, which only the
    console line has), what was logged before being kept as it is; when
    the window has no name or an empty one, nothing is written and the
    loop goes on. *)
Theorem C5_focus_in_record
    (XKeysymToString : KeySym -> option string)
    (p : process) (a : arrival) (w : Window) :
  xev a = FocusIn w ->
  fopen_ok a = true ->
  (forall wname,
     getWindowName (display a) w = Some wname -> wname <> "" ->
     iteration XKeysymToString p a
     = Running
         (mkProcess
            (stdout p ++ LF
             ++ "[" ++ getTimeStr (now a) ++ "] FocusIn: "
             ++ HexString.of_N w ++ " => " ++ wname ++ LF)
            (keylog p ++ LF
             ++ "[" ++ getTimeStr (now a) ++ "] FocusIn: " ++ wname ++ LF)
            (key_buff p)))
  /\ (getWindowName (display a) w = None
      \/ getWindowName (display a) w = Some "" ->
      iteration XKeysymToString p a = Running p)
  /\ (forall rest,
        getWindowName (display a) w = None
        \/ getWindowName (display a) w = Some "" ->
        event_loop XKeysymToString p (a :: rest)
        = event_loop XKeysymToString p rest).
Proof.
  intros Hev Hopen.
  assert (Hdrop : getWindowName (display a) w = None
                  \/ getWindowName (display a) w = Some "" ->
                  iteration XKeysymToString p a = Running p).
  { unfold iteration. rewrite Hopen, Hev. simpl negb. cbv iota.
    intros [->| ->]; reflexivity. }
  split; [|split].
  - intros wname Hname Hne. unfold iteration.
    rewrite Hopen, Hev, Hname. simpl negb. cbv iota.
    apply is_empty_false in Hne. rewrite Hne.
    unfold focus_console_line, focus_log_line.
    now rewrite !append_assoc.
  - exact Hdrop.
  - intros rest H. cbn [event_loop]. now rewrite (Hdrop H).
Qed.

Lemma C5_focus_in_record_witness :
  iteration sample_keysym_names process_after_hi (focus_on 10%N)
  = Running
      (mkProcess
         ("hi" ++ LF ++ "[2024-05-01 12:00:00] FocusIn: 0xa => Mozilla Firefox" ++ LF)
         ("Keylogger started" ++ LF ++ "hi" ++ LF
          ++ "[2024-05-01 12:00:00] FocusIn: Mozilla Firefox" ++ LF)
         (repeat NUL KEY_BUFF_SIZE))
  /\ iteration sample_keysym_names process_after_hi (focus_on 21%N)
     = Running process_after_hi.
Proof.
  destruct (C5_focus_in_record sample_keysym_names process_after_hi
              (focus_on 10%N) 10%N eq_refl eq_refl) as [Hrecord _].
  destruct (C5_focus_in_record sample_keysym_names process_after_hi
              (focus_on 21%N) 21%N eq_refl eq_refl) as [_ [Hdrop _]].
  split.
  - apply (Hrecord "Mozilla Firefox"); [reflexivity | discriminate].
  - apply Hdrop. left. reflexivity.
Defined.

(* ================================================================== *)
(** * Further properties of the program *)

(* ================================================================== *)
(** ** Any server: what a returning selection has done *)

Lemma select_children_some (descend : Window -> client -> option client) :
  (forall w st st', descend w st = Some st' -> exists ws, st' = selected ws st) ->
  forall children st st',
    select_children descend children st = Some st' ->
    exists ws, st' = selected ws st.
Proof.
  intros Hd. induction children as [|c cs IH]; intros st st';
    cbn [select_children].
  - intros [= <-]. exists []. now rewrite selected_nil.
  - change (XSelectInput c (N.lor KeyPressMask FocusChangeMask) st)
      with (selected [c] st).
    destruct (descend c (selected [c] st)) as [st2|] eqn:E2; [|discriminate].
    intros E. apply Hd in E2 as [ws1 ->]. apply IH in E as [ws2 ->].
    exists (([c] ++ ws1) ++ ws2)%list. now rewrite !selected_app.
Qed.

Lemma recursive_select_some (disp : XServer) (fuel : nat) :
  forall w st st',
    recursive_select disp fuel w st = Some st' ->
    exists ws, st' = selected ws st.
Proof.
  induction fuel as [|fuel IH]; intros w st st'; simpl; [discriminate|].
  destruct (XQueryTree disp w) as [ch|].
  - destruct (List.length ch =? 0)%nat.
    + intros [= <-]. exists []. now rewrite selected_nil.
    + apply select_children_some. exact IH.
  - intros [= <-]. exists []. now rewrite selected_nil.
Qed.

(** A returning [snoop_windows] has looked up some windows [vs] and then
    selected input on some windows [ws]; when it reports a match, [ws] is
    the match set. *)
Lemma snoop_windows_some (disp : XServer) (fuel : nat)
    (designated : option string) (st st' : client) (found : bool) :
  snoop_windows disp fuel designated st = Some (found, st') ->
  exists vs ws,
    st' = selected ws (walked disp designated vs st)
    /\ found = (0 <? List.length (matched_windows st
                                  ++ filter (accepts disp designated) vs))%nat
    /\ (found = true ->
        ws = (matched_windows st ++ filter (accepts disp designated) vs)%list).
Proof.
  unfold snoop_windows.
  destruct (find_matched_windows disp fuel (DefaultRootWindow disp)
              designated st) as [st1|] eqn:E1; [|discriminate].
  apply find_matched_windows_some in E1 as [vs [-> _]].
  unfold matched_count. cbn [matched_windows walked].
  destruct (0 <? List.length (matched_windows st
                              ++ filter (accepts disp designated) vs))%nat
    eqn:Efound.
  - intros [= <- <-]. rewrite select_matched_selected.
    exists vs. eexists. split; [reflexivity|].
    split; [now rewrite Efound | reflexivity].
  - assert (Hdone : forall ws,
              exists vs0 ws0,
                selected ws (walked disp designated vs st)
                = selected ws0 (walked disp designated vs0 st)
                /\ false = (0 <? List.length
                                   (matched_windows st
                                    ++ filter (accepts disp designated) vs0))%nat
                /\ (false = true ->
                    ws0 = (matched_windows st
                           ++ filter (accepts disp designated) vs0)%list)).
    { intros ws. exists vs, ws. split; [reflexivity|].
      split; [now rewrite Efound | discriminate]. }
    destruct (XQueryTree disp (DefaultRootWindow disp)) as [children|].
    + destruct (0 <? List.length children)%nat.
      * destruct (select_children (recursive_select disp fuel) children
                    (walked disp designated vs st)) as [st2|] eqn:E2;
          [|discriminate].
        intros [= <- <-].
        apply select_children_some in E2 as [ws ->];
          [|apply recursive_select_some].
        apply Hdone.
      * intros [= <- <-]. rewrite <- (selected_nil (walked _ _ vs st)).
        apply Hdone.
    + intros [= <- <-]. rewrite <- (selected_nil (walked _ _ vs st)).
      apply Hdone.
Qed.

Lemma mask_bits (i : N) :
  N.testbit (N.lor KeyPressMask FocusChangeMask) i = true <-> i = 0%N \/ i = 21%N.
Proof.
  unfold KeyPressMask, FocusChangeMask.
  rewrite N.lor_spec, !N.shiftl_1_l, !N.pow2_bits_eqb, orb_true_iff, !N.eqb_eq.
  intuition congruence.
Qed.

Lemma contains_trans (n d2 d1 : string) :
  contains n d2 -> contains d2 d1 -> contains n d1.
Proof.
  intros [pre [post ->]] [pre' [post' ->]].
  exists (pre ++ pre')%string, (post' ++ post)%string.
  now rewrite !append_assoc.
Qed.

Lemma match_children_stuck (disp : XServer)
    (descend : Window -> client -> option client)
    (designated : option string) (c : Window) :
  (forall st, descend c st = None) ->
  forall children st,
    In c children ->
    match_children disp descend designated children st = None.
Proof.
  intros Hc. induction children as [|c' cs IH]; intros st; simpl; [tauto|].
  rewrite loop_body_walked. intros [->|Hin].
  - now rewrite Hc.
  - destruct (descend c' _); [now apply IH | reflexivity].
Qed.

Lemma leads_to_cycle_step (disp : XServer) (w v : Window) :
  (w = v \/ below disp w v) -> below disp v v ->
  exists c, In c (reported_children disp w) /\ (c = v \/ below disp c v).
Proof.
  intros [->|Hwv] Hvv.
  - inversion Hvv; subst; eauto.
  - inversion Hwv; subst; eauto.
Qed.

Lemma find_matched_windows_unbounded (disp : XServer)
    (designated : option string) (v : Window) :
  below disp v v ->
  forall fuel w st,
    (w = v \/ below disp w v) ->
    find_matched_windows disp fuel w designated st = None.
Proof.
  intros Hvv. induction fuel as [|fuel IH]; intros w st Hw; [reflexivity|].
  destruct (leads_to_cycle_step disp w v Hw Hvv) as [c [Hin Hc]].
  simpl. unfold reported_children in Hin.
  destruct (XQueryTree disp w) as [children|]; [|contradiction].
  destruct children as [|c0 cs]; [contradiction|].
  cbn [List.length Nat.eqb].
  apply (match_children_stuck disp _ designated c); [|exact Hin].
  intros st0. now apply IH.
Qed.

(* ================================================================== *)
(** ** The walker and the selector *)

(** X1: on every hierarchy [snoop_windows] returns, and the flag it stores
    in [*foundAnyMatches] is set exactly when some window of the hierarchy
    passes the name test, which is exactly when the match set is not
    empty. *)
Theorem X1_found_flag_reports_matches
    (disp : XServer) (t : hierarchy) (designated : option string) (fuel : nat) :
  mirrors disp t = true ->
  handle t = DefaultRootWindow disp ->
  height t <= fuel ->
  exists found st,
    snoop_windows disp fuel designated initial_client = Some (found, st)
    /\ (found = true
        <-> exists w, In w (descendants t) /\ accepts disp designated w = true)
    /\ (found = true <-> matched_windows st <> []).
Proof.
  intros Hm Hroot Hfuel.
  destruct (snoop_windows_on_hierarchy disp t designated fuel Hm Hroot Hfuel)
    as [st [Hs [Hmatched _]]].
  eexists _, st. split; [exact Hs|]. split.
  - apply existsb_exists.
  - rewrite Hmatched, <- filter_nonempty_existsb.
    destruct (filter (accepts disp designated) (descendants t)); simpl.
    + split; [discriminate | intros H; now contradiction H].
    + split; [discriminate | reflexivity].
Qed.

Lemma X1_found_flag_witness :
  mirrors sample_server sample_hierarchy = true
  /\ handle sample_hierarchy = DefaultRootWindow sample_server
  /\ height sample_hierarchy <= 4
  /\ exists found st,
       snoop_windows sample_server 4 (Some "xterm") initial_client
       = Some (found, st)
       /\ (found = true
           <-> exists w, In w (descendants sample_hierarchy)
                         /\ accepts sample_server (Some "xterm") w = true)
       /\ (found = true <-> matched_windows st <> []).
Proof.
  split; [reflexivity|]. split; [reflexivity|]. split; [simpl; lia|].
  apply (X1_found_flag_reports_matches sample_server sample_hierarchy
           (Some "xterm") 4); [reflexivity | reflexivity | simpl; lia].
Defined.

(** X2: whatever the server answers, when [snoop_windows] returns from the
    initial state: if it reports a match, input is selected on exactly the
    windows of the match set, in the order they were matched, and that set
    is not empty; if it reports none, the match set is empty. *)
Theorem X2_selection_follows_flag
    (disp : XServer) (fuel : nat) (designated : option string)
    (found : bool) (st : client) :
  snoop_windows disp fuel designated initial_client = Some (found, st) ->
  (found = true -> monitoring st = matched_windows st /\ matched_windows st <> [])
  /\ (found = false -> matched_windows st = []).
Proof.
  intros Hs. apply snoop_windows_some in Hs as [vs [ws [-> [Hfound Hws]]]].
  cbn [matched_windows initial_client app] in Hfound, Hws.
  rewrite monitoring_selected, monitoring_walked.
  cbn [selected walked matched_windows initial_client monitoring
       input_selected filter map app].
  split; intros ->.
  - rewrite (Hws eq_refl). split; [reflexivity|].
    destruct (filter (accepts disp designated) vs); [discriminate Hfound|].
    discriminate.
  - destruct (filter (accepts disp designated) vs); [reflexivity|].
    discriminate Hfound.
Qed.

Lemma X2_selection_follows_flag_witness :
  exists st,
    snoop_windows sample_server 4 (Some "irefox") initial_client = Some (true, st)
    /\ monitoring st = matched_windows st /\ matched_windows st <> [].
Proof.
  eexists. split; [reflexivity|].
  apply (X2_selection_follows_flag sample_server 4 (Some "irefox") true);
    reflexivity.
Defined.

(** X3: whatever the server answers (also when a handle is reported under
    several parents), a walk that returns from the initial state leaves as
    match set exactly the looked-up windows that pass the name test, in
    the order they were looked up. *)
Theorem X3_match_set_is_accepted_lookups
    (disp : XServer) (fuel : nat) (root : Window)
    (designated : option string) (st : client) :
  find_matched_windows disp fuel root designated initial_client = Some st ->
  matched_windows st = filter (accepts disp designated) (name_lookups st)
  /\ input_selected st = [].
Proof.
  intros Hrun. apply find_matched_windows_some in Hrun as [ws [-> _]].
  split; reflexivity.
Qed.

Lemma X3_match_set_witness :
  exists st,
    find_matched_windows sample_server 4 1%N (Some "Fire") initial_client = Some st
    /\ matched_windows st
       = filter (accepts sample_server (Some "Fire")) (name_lookups st)
    /\ input_selected st = [].
Proof.
  eexists. split; [reflexivity|].
  apply (X3_match_set_is_accepted_lookups sample_server 4 1%N (Some "Fire")).
  reflexivity.
Defined.

(** X4: every [XSelectInput] call [snoop_windows] makes asks for the same
    event mask, whose set bits are exactly bit 0 (key press) and bit 21
    (focus change); so every window it selects input on is in the
    monitoring set. *)
Theorem X4_selection_mask
    (disp : XServer) (fuel : nat) (designated : option string)
    (found : bool) (st : client) :
  snoop_windows disp fuel designated initial_client = Some (found, st) ->
  (forall w event_mask,
     In (w, event_mask) (input_selected st) ->
     forall i, N.testbit event_mask i = true <-> i = 0%N \/ i = 21%N)
  /\ monitoring st = map fst (input_selected st).
Proof.
  intros Hs. apply snoop_windows_some in Hs as [vs [ws [-> _]]].
  split.
  - intros w event_mask Hin i. simpl in Hin.
    apply in_map_iff in Hin as [w' [[= _ <-] _]]. apply mask_bits.
  - rewrite monitoring_selected. simpl.
    rewrite map_map. simpl. now rewrite map_id.
Qed.

Lemma X4_selection_mask_witness :
  exists st,
    snoop_windows sample_server 4 (Some "emacs") initial_client = Some (false, st)
    /\ (forall w event_mask,
          In (w, event_mask) (input_selected st) ->
          forall i, N.testbit event_mask i = true <-> i = 0%N \/ i = 21%N)
    /\ monitoring st = map fst (input_selected st).
Proof.
  eexists. split; [reflexivity|].
  apply (X4_selection_mask sample_server 4 (Some "emacs") false).
  reflexivity.
Defined.

(** X5: on a hierarchy in which no handle occurs twice, [snoop_windows]
    calls [XSelectInput] at most once per window, only on descendants of
    the root, and never on the root window itself, whatever the root's own
    name. *)
Theorem X5_no_double_select_and_never_root
    (disp : XServer) (t : hierarchy) (designated : option string) (fuel : nat) :
  mirrors disp t = true ->
  handle t = DefaultRootWindow disp ->
  NoDup (handle t :: descendants t) ->
  height t <= fuel ->
  exists found st,
    snoop_windows disp fuel designated initial_client = Some (found, st)
    /\ NoDup (map fst (input_selected st))
    /\ incl (map fst (input_selected st)) (descendants t)
    /\ ~ In (DefaultRootWindow disp) (map fst (input_selected st)).
Proof.
  intros Hm Hroot Hnodup Hfuel.
  destruct (snoop_windows_on_hierarchy disp t designated fuel Hm Hroot Hfuel)
    as [st [Hs [_ [_ Hmon]]]].
  eexists _, st. split; [exact Hs|].
  assert (Hsel : map fst (input_selected st) = monitoring st).
  { apply snoop_windows_some in Hs as [vs [ws [-> _]]].
    rewrite monitoring_selected. simpl.
    rewrite map_map. simpl. now rewrite map_id. }
  apply NoDup_cons_iff in Hnodup as [Hnotin Hnodup].
  assert (Hincl : incl (monitoring st) (descendants t)).
  { rewrite Hmon. destruct (existsb _ _); [|apply incl_refl].
    intros w Hw. now apply filter_In in Hw. }
  rewrite Hsel. split; [|split].
  - rewrite Hmon. destruct (existsb _ _); [now apply NoDup_filter | exact Hnodup].
  - exact Hincl.
  - rewrite <- Hroot. intros Hin. apply Hnotin. now apply Hincl.
Qed.

Lemma X5_no_double_select_witness :
  NoDup (handle sample_hierarchy :: descendants sample_hierarchy)
  /\ exists found st,
       snoop_windows sample_server 4 (Some "emacs") initial_client
       = Some (found, st)
       /\ NoDup (map fst (input_selected st))
       /\ incl (map fst (input_selected st)) (descendants sample_hierarchy)
       /\ ~ In (DefaultRootWindow sample_server) (map fst (input_selected st)).
Proof.
  assert (Hd : NoDup (handle sample_hierarchy :: descendants sample_hierarchy))
    by distinct_handles.
  split; [exact Hd|].
  apply (X5_no_double_select_and_never_root sample_server sample_hierarchy
           (Some "emacs") 4); [reflexivity | reflexivity | exact Hd | simpl; lia].
Defined.

(** X6: the walker keeps no record of the windows it has seen: if some
    window is reached from itself by child enumeration, then the walk from
    that window, and from any window above it, does not return within any
    recursion bound, and neither does [snoop_windows] when the root is
    such a window. *)
Theorem X6_cycle_is_never_left
    (disp : XServer) (designated : option string) (v w : Window) (fuel : nat)
    (st : client) :
  below disp v v ->
  w = v \/ below disp w v ->
  find_matched_windows disp fuel w designated st = None
  /\ (w = DefaultRootWindow disp ->
      snoop_windows disp fuel designated st = None).
Proof.
  intros Hvv Hw.
  assert (Hnone : find_matched_windows disp fuel w designated st = None)
    by now apply (find_matched_windows_unbounded disp designated v).
  split; [exact Hnone|].
  intros ->. unfold snoop_windows. now rewrite Hnone.
Qed.

Lemma X6_cycle_witness :
  below cyclic_server 1%N 1%N
  /\ find_matched_windows cyclic_server 1000 1%N (Some "a") initial_client = None
  /\ snoop_windows cyclic_server 1000 (Some "a") initial_client = None.
Proof.
  assert (Hcycle : below cyclic_server 1%N 1%N).
  { apply (below_deeper cyclic_server 1%N 2%N 1%N); [simpl; tauto|].
    apply below_child. simpl. tauto. }
  split; [exact Hcycle|].
  destruct (X6_cycle_is_never_left cyclic_server (Some "a") 1%N 1%N 1000
              initial_client Hcycle (or_introl eq_refl)) as [Hwalk Hsnoop].
  split; [exact Hwalk | exact (Hsnoop eq_refl)].
Defined.

(** X7: shortening the designator never loses a window: on every
    hierarchy, if the non-empty designator [d1] is a substring of [d2],
    every window matched for [d2] is matched for [d1]. *)
Theorem X7_shorter_designator_matches_more
    (disp : XServer) (t : hierarchy) (d1 d2 : string) (fuel : nat) :
  mirrors disp t = true ->
  height t <= fuel ->
  d1 <> "" ->
  contains d2 d1 ->
  exists st1 st2,
    find_matched_windows disp fuel (handle t) (Some d1) initial_client = Some st1
    /\ find_matched_windows disp fuel (handle t) (Some d2) initial_client = Some st2
    /\ incl (matched_windows st2) (matched_windows st1).
Proof.
  intros Hm Hfuel Hd1 Hsub.
  rewrite !(find_matched_windows_walked disp _ t Hm fuel Hfuel).
  eexists _, _. split; [reflexivity|]. split; [reflexivity|].
  simpl. intros w Hw. apply filter_In in Hw as [Hin Hacc].
  apply filter_In. split; [exact Hin|].
  destruct (string_dec d2 "") as [->|Hd2].
  - now rewrite accepts_empty_designator in Hacc.
  - apply (accepts_name_contains disp d2 w Hd2) in Hacc as [n [Hn Hc]].
    apply (accepts_name_contains disp d1 w Hd1).
    exists n. split; [exact Hn|]. now apply (contains_trans n d2 d1).
Qed.

Lemma X7_shorter_designator_witness :
  exists st1 st2,
    find_matched_windows sample_server 4 (handle sample_hierarchy)
      (Some "fox") initial_client = Some st1
    /\ find_matched_windows sample_server 4 (handle sample_hierarchy)
         (Some "Firefox") initial_client = Some st2
    /\ incl (matched_windows st2) (matched_windows st1).
Proof.
  apply (X7_shorter_designator_matches_more sample_server sample_hierarchy
           "fox" "Firefox" 4); [reflexivity | simpl; lia | discriminate |].
  exists "Fire", "". reflexivity.
Defined.

(* ================================================================== *)
(** ** The translator *)

Lemma c_str_length (buf : list ascii) :
  String.length (c_str buf) <= List.length buf.
Proof.
  induction buf as [|c buf IH]; simpl; [lia|].
  destruct (Ascii.eqb c NUL); simpl; lia.
Qed.

Lemma fragment_text_length (XKeysymToString : KeySym -> option string)
    (ev : XKeyEvent) :
  List.length (xk_translation ev) < KEY_BUFF_SIZE ->
  String.length (fragment_text XKeysymToString ev) < KEY_BUFF_SIZE.
Proof.
  intros Hsmall. unfold fragment_text.
  destruct (xk_translation ev) as [|c chars].
  - eapply Nat.le_lt_trans; [apply c_str_length|].
    eapply Nat.le_lt_trans; [apply firstn_le_length|].
    unfold KEY_BUFF_SIZE. lia.
  - eapply Nat.le_lt_trans; [apply c_str_length | exact Hsmall].
Qed.

(** X8: with [key_buff] at its capacity, the translator writes outside
    the array exactly when the keyboard mapping holds [KEY_BUFF_SIZE]
    characters or more for the event; for every shorter translation it
    returns. *)
Theorem X8_out_of_bounds_exactly_when_full
    (XKeysymToString : KeySym -> option string)
    (kb : list ascii) (ev : XKeyEvent) :
  List.length kb = KEY_BUFF_SIZE ->
  (TranslateKeyCode XKeysymToString kb ev = None
   <-> KEY_BUFF_SIZE <= List.length (xk_translation ev)).
Proof.
  intros Hkb.
  destruct (TranslateKeyCode_cases XKeysymToString kb ev Hkb)
    as [[Hbig E]|[Hsmall [kb' [E _]]]]; rewrite E.
  - tauto.
  - split; [discriminate | lia].
Qed.

Lemma X8_out_of_bounds_witness :
  List.length (repeat NUL KEY_BUFF_SIZE) = KEY_BUFF_SIZE
  /\ (TranslateKeyCode sample_keysym_names (repeat NUL KEY_BUFF_SIZE) key_h = None
      <-> KEY_BUFF_SIZE <= List.length (xk_translation key_h)).
Proof.
  split; [reflexivity|].
  apply (X8_out_of_bounds_exactly_when_full sample_keysym_names). reflexivity.
Defined.

(** X9: the translator keeps no state between calls: the fragment does
    not depend on what [key_buff] held before the call, and translating
    the same event again, over the buffer the first call left, gives the
    same fragment. *)
Theorem X9_translator_is_stateless
    (XKeysymToString : KeySym -> option string)
    (kb1 kb2 : list ascii) (ev : XKeyEvent) :
  List.length kb1 = KEY_BUFF_SIZE ->
  List.length kb2 = KEY_BUFF_SIZE ->
  fragment XKeysymToString kb1 ev = fragment XKeysymToString kb2 ev
  /\ (forall kb1',
        TranslateKeyCode XKeysymToString kb1 ev = Some kb1' ->
        fragment XKeysymToString kb1' ev = Some (c_str kb1')).
Proof.
  intros H1 H2. split; [now apply fragment_stateless|].
  intros kb1' E.
  destruct (TranslateKeyCode_cases XKeysymToString kb1 ev H1)
    as [[_ E']|[Hsmall [kb' [E' [Hlen Hc]]]]]; rewrite E' in E;
    [discriminate|].
  injection E as <-.
  rewrite (fragment_cases XKeysymToString kb' ev Hlen).
  apply Nat.ltb_lt in Hsmall. now rewrite Hsmall, Hc.
Qed.

Lemma X9_translator_is_stateless_witness :
  fragment sample_keysym_names (repeat NUL KEY_BUFF_SIZE) key_Return
  = fragment sample_keysym_names (repeat "x"%char KEY_BUFF_SIZE) key_Return.
Proof.
  apply (X9_translator_is_stateless sample_keysym_names); reflexivity.
Defined.

(** X10: whenever the translator returns, [key_buff] keeps its capacity
    and the fragment is terminated inside it: the fragment has at most
    [KEY_BUFF_SIZE - 1] characters. *)
Theorem X10_fragment_fits_key_buff
    (XKeysymToString : KeySym -> option string)
    (kb kb' : list ascii) (ev : XKeyEvent) :
  List.length kb = KEY_BUFF_SIZE ->
  TranslateKeyCode XKeysymToString kb ev = Some kb' ->
  List.length kb' = KEY_BUFF_SIZE
  /\ String.length (c_str kb') <= KEY_BUFF_SIZE - 1.
Proof.
  intros Hkb E.
  destruct (TranslateKeyCode_cases XKeysymToString kb ev Hkb)
    as [[_ E']|[Hsmall [kb0 [E' [Hlen Hc]]]]]; rewrite E' in E;
    [discriminate|].
  injection E as <-. split; [exact Hlen|].
  rewrite Hc.
  pose proof (fragment_text_length XKeysymToString ev Hsmall). lia.
Qed.

Lemma X10_fragment_fits_witness :
  exists kb',
    TranslateKeyCode long_keysym_names (repeat NUL KEY_BUFF_SIZE) key_Return
    = Some kb'
    /\ List.length kb' = KEY_BUFF_SIZE
    /\ String.length (c_str kb') <= KEY_BUFF_SIZE - 1.
Proof.
  eexists. split; [vm_compute; reflexivity|].
  apply (X10_fragment_fits_key_buff long_keysym_names
           (repeat NUL KEY_BUFF_SIZE) _ key_Return);
    [reflexivity | vm_compute; reflexivity].
Defined.

(** X11: when the lookup yields between 1 and [KEY_BUFF_SIZE - 1]
    characters, the fragment is the characters before the first NUL among
    them, whatever the symbolic name of the key: a NUL cuts the fragment
    short, and a leading NUL makes it empty. *)
Theorem X11_fragment_cut_at_first_nul
    (XKeysymToString : KeySym -> option string)
    (kb : list ascii) (ev : XKeyEvent) (before after : list ascii) :
  List.length kb = KEY_BUFF_SIZE ->
  xk_translation ev = (before ++ NUL :: after)%list ->
  nul_free before = true ->
  List.length (xk_translation ev) < KEY_BUFF_SIZE ->
  fragment XKeysymToString kb ev = Some (string_of_list_ascii before).
Proof.
  intros Hkb Htr Hfree Hsmall.
  rewrite (fragment_cases XKeysymToString kb ev Hkb).
  apply Nat.ltb_lt in Hsmall. rewrite Hsmall. f_equal.
  unfold fragment_text. rewrite Htr.
  destruct (before ++ NUL :: after)%list as [|c chars] eqn:E.
  - destruct before; discriminate E.
  - rewrite <- E, c_str_before_nul. now apply c_str_nul_free.
Qed.

Lemma X11_fragment_cut_witness :
  fragment sample_keysym_names (repeat NUL KEY_BUFF_SIZE)
    (mkXKeyEvent ["a"; NUL; "b"]%char 0x61%N)
  = Some "a".
Proof.
  apply (X11_fragment_cut_at_first_nul sample_keysym_names
           (repeat NUL KEY_BUFF_SIZE)
           (mkXKeyEvent ["a"; NUL; "b"]%char 0x61%N)
           ["a"%char] ["b"%char]);
    [reflexivity | reflexivity | reflexivity | unfold KEY_BUFF_SIZE; simpl; lia].
Defined.

(** X12: when the lookup yields nothing and the key's symbolic name has
    [KEY_BUFF_SIZE - 2] characters or more, the fragment is cut to the
    buffer: it is "<" followed by the first [KEY_BUFF_SIZE - 2] characters
    of the name, without the closing bracket. *)
Theorem X12_long_symbolic_name_is_cut
    (XKeysymToString : KeySym -> option string)
    (kb : list ascii) (ev : XKeyEvent) (X : string) :
  List.length kb = KEY_BUFF_SIZE ->
  xk_translation ev = [] ->
  XKeysymToString (xk_keysym ev) = Some X ->
  nul_free (list_ascii_of_string X) = true ->
  KEY_BUFF_SIZE - 2 <= String.length X ->
  fragment XKeysymToString kb ev
  = Some (String "<"
            (string_of_list_ascii
               (firstn (KEY_BUFF_SIZE - 2) (list_ascii_of_string X)))).
Proof.
  intros Hkb Htr HX Hfree Hlong.
  rewrite (fragment_cases XKeysymToString kb ev Hkb), Htr.
  change (List.length (@nil ascii) <? KEY_BUFF_SIZE)%nat with true.
  cbv iota. f_equal.
  unfold fragment_text, symbolic_text. rewrite Htr, HX.
  change ("<" ++ X ++ ">") with (String "<" (X ++ ">")).
  cbn [list_ascii_of_string].
  change (KEY_BUFF_SIZE - 1) with (S (KEY_BUFF_SIZE - 2)).
  cbn [firstn].
  rewrite list_ascii_of_string_app, firstn_app.
  rewrite <- list_ascii_of_string_length in Hlong.
  replace (KEY_BUFF_SIZE - 2 - List.length (list_ascii_of_string X)) with 0
    by lia.
  rewrite firstn_O, app_nil_r.
  change (c_str ("<"%char :: ?l)) with (String "<" (c_str l)).
  f_equal. apply c_str_nul_free. now apply nul_free_firstn.
Qed.

Lemma X12_long_symbolic_name_witness :
  fragment long_keysym_names (repeat NUL KEY_BUFF_SIZE) key_Return
  = Some (String "<" (string_of_list_ascii (repeat "k"%char 254))).
Proof.
  apply (X12_long_symbolic_name_is_cut long_keysym_names
           (repeat NUL KEY_BUFF_SIZE) key_Return
           (string_of_list_ascii (repeat "k"%char 300)));
    [reflexivity | reflexivity | reflexivity | reflexivity
    | vm_compute; repeat constructor].
Defined.

(* ================================================================== *)
(** ** The capture loop *)

Section LoopInvariants.
Variable XKeysymToString : KeySym -> option string.

Lemma iteration_exited (p p' : process) (a : arrival) (status : nat) :
  iteration XKeysymToString p a = Exited status p' ->
  fopen_ok a = false /\ status = 1 /\ p' = p.
Proof.
  unfold iteration. destruct (fopen_ok a); simpl.
  - destruct (xev a) as [w|xk|].
    + destruct (getWindowName (display a) w) as [n|];
        [destruct (is_empty n)|]; discriminate.
    + destruct (TranslateKeyCode XKeysymToString (key_buff p) xk); discriminate.
    + discriminate.
  - intros [= <- <-]. auto.
Qed.

Lemma iteration_running (p p' : process) (a : arrival) :
  iteration XKeysymToString p a = Running p' ->
  fopen_ok a = true
  /\ exists out log,
       stdout p' = (stdout p ++ out)%string
       /\ keylog p' = (keylog p ++ log)%string.
Proof.
  unfold iteration. destruct (fopen_ok a); simpl; [|discriminate].
  intros H. split; [reflexivity|].
  assert (Hsame : exists out log,
             stdout p = (stdout p ++ out)%string
             /\ keylog p = (keylog p ++ log)%string)
    by (exists "", ""; now rewrite !append_empty_r).
  destruct (xev a) as [w|xk|].
  - destruct (getWindowName (display a) w) as [n|].
    + destruct (is_empty n).
      * injection H as <-. exact Hsame.
      * injection H as <-. simpl. eauto.
    + injection H as <-. exact Hsame.
  - destruct (TranslateKeyCode XKeysymToString (key_buff p) xk); [|discriminate].
    injection H as <-. simpl. eauto.
  - injection H as <-. exact Hsame.
Qed.

Lemma iteration_keeps_capacity (p p' : process) (a : arrival) :
  List.length (key_buff p) = KEY_BUFF_SIZE ->
  iteration XKeysymToString p a = Running p' ->
  List.length (key_buff p') = KEY_BUFF_SIZE.
Proof.
  intros Hlen. unfold iteration. destruct (fopen_ok a); simpl; [|discriminate].
  destruct (xev a) as [w|xk|].
  - destruct (getWindowName (display a) w) as [n|];
      [destruct (is_empty n)|]; intros [= <-]; exact Hlen.
  - destruct (TranslateKeyCode_cases XKeysymToString (key_buff p) xk Hlen)
      as [[_ E]|[_ [kb' [E [Hlen' _]]]]]; rewrite E; [discriminate|].
    intros [= <-]. exact Hlen'.
  - intros [= <-]. exact Hlen.
Qed.

Lemma event_loop_appends (arrivals : list arrival) :
  forall p p',
    process_of (event_loop XKeysymToString p arrivals) = Some p' ->
    exists out log,
      stdout p' = (stdout p ++ out)%string
      /\ keylog p' = (keylog p ++ log)%string.
Proof.
  induction arrivals as [|a rest IH]; intros p p'; cbn [event_loop].
  - intros [= <-]. exists "", "". now rewrite !append_empty_r.
  - destruct (iteration XKeysymToString p a) as [p1|status p1|] eqn:E.
    + intros H. apply IH in H as [out2 [log2 [Hout2 Hlog2]]].
      apply iteration_running in E as [_ [out1 [log1 [Hout1 Hlog1]]]].
      exists (out1 ++ out2)%string, (log1 ++ log2)%string.
      now rewrite Hout2, Hlog2, Hout1, Hlog1, !append_assoc.
    + intros [= <-]. apply iteration_exited in E as [_ [_ ->]].
      exists "", "". now rewrite !append_empty_r.
    + discriminate.
Qed.
End LoopInvariants.

(** X13: the console stream and the log only grow: whatever events arrive,
    as long as the loop has not written outside [key_buff], what was
    printed and logged before is a prefix of what is printed and logged
    after; nothing already written is altered or removed. *)
Theorem X13_streams_are_append_only
    (XKeysymToString : KeySym -> option string)
    (p p' : process) (arrivals : list arrival) :
  process_of (event_loop XKeysymToString p arrivals) = Some p' ->
  exists out log,
    stdout p' = (stdout p ++ out)%string
    /\ keylog p' = (keylog p ++ log)%string.
Proof.
  intros Hleft.
  now apply (event_loop_appends XKeysymToString arrivals p p').
Qed.

Lemma X13_streams_are_append_only_witness :
  exists p',
    process_of (event_loop sample_keysym_names process_after_hi mixed_arrivals)
    = Some p'
    /\ exists out log,
         stdout p' = (stdout process_after_hi ++ out)%string
         /\ keylog p' = (keylog process_after_hi ++ log)%string.
Proof.
  eexists. split; [vm_compute; reflexivity|].
  apply (X13_streams_are_append_only sample_keysym_names process_after_hi _
           mixed_arrivals).
  vm_compute. reflexivity.
Defined.

(** X14: the loop leaves through [exit] only with status 1, and only at
    the first arrival for which the log cannot be opened; the event
    received in that turn is lost: the process is as the earlier turns
    left it. *)
Theorem X14_loop_exits_only_on_unopenable_log
    (XKeysymToString : KeySym -> option string)
    (p p' : process) (arrivals : list arrival) (status : nat) :
  event_loop XKeysymToString p arrivals = Exited status p' ->
  status = 1
  /\ exists earlier a later,
       arrivals = (earlier ++ a :: later)%list
       /\ fopen_ok a = false
       /\ Forall (fun e => fopen_ok e = true) earlier
       /\ event_loop XKeysymToString p earlier = Running p'.
Proof.
  revert p. induction arrivals as [|a rest IH]; intros p; cbn [event_loop];
    [discriminate|].
  destruct (iteration XKeysymToString p a) as [p1|status1 p1|] eqn:E.
  - intros H. apply IH in H as [-> [earlier [a' [later [-> [Ha' [Hall Hrun]]]]]]].
    split; [reflexivity|].
    exists (a :: earlier), a', later. split; [reflexivity|]. split; [exact Ha'|].
    apply iteration_running in E as Hopen. destruct Hopen as [Hopen _].
    split; [now constructor|].
    cbn [event_loop]. now rewrite E.
  - intros [= <- <-]. apply iteration_exited in E as [Hopen [-> ->]].
    split; [reflexivity|].
    exists [], a, rest. repeat split; auto.
  - discriminate.
Qed.

Lemma X14_loop_exit_witness :
  event_loop sample_keysym_names process_at_start
    (three_key_presses ++ log_unopenable :: three_key_presses)
  = Exited 1 (mkProcess "hi<Return>"
                ("Keylogger started" ++ LF ++ "hi<Return>")
                (list_ascii_of_string "<Return>"
                 ++ repeat NUL (KEY_BUFF_SIZE - 8)))
  /\ exists earlier a later,
       (three_key_presses ++ log_unopenable :: three_key_presses)%list
       = (earlier ++ a :: later)%list
       /\ fopen_ok a = false
       /\ Forall (fun e => fopen_ok e = true) earlier
       /\ event_loop sample_keysym_names process_at_start earlier
          = Running (mkProcess "hi<Return>"
                       ("Keylogger started" ++ LF ++ "hi<Return>")
                       (list_ascii_of_string "<Return>"
                        ++ repeat NUL (KEY_BUFF_SIZE - 8))).
Proof.
  assert (E : event_loop sample_keysym_names process_at_start
                (three_key_presses ++ log_unopenable :: three_key_presses)
              = Exited 1 (mkProcess "hi<Return>"
                            ("Keylogger started" ++ LF ++ "hi<Return>")
                            (list_ascii_of_string "<Return>"
                             ++ repeat NUL (KEY_BUFF_SIZE - 8))))
    by (vm_compute; reflexivity).
  split; [exact E|].
  exact (proj2 (X14_loop_exits_only_on_unopenable_log sample_keysym_names
                  process_at_start _ _ 1 E)).
Defined.

(** X15: nothing but an unopenable log or a lookup that fills [key_buff]
    stops the loop: over arrivals for which the log opens and every key
    press translates to fewer than [KEY_BUFF_SIZE] characters, the loop is
    still running after any number of events, with [key_buff] at its
    capacity. *)
Theorem X15_loop_keeps_running
    (XKeysymToString : KeySym -> option string)
    (p : process) (arrivals : list arrival) :
  List.length (key_buff p) = KEY_BUFF_SIZE ->
  forallb harmless arrivals = true ->
  exists p',
    event_loop XKeysymToString p arrivals = Running p'
    /\ List.length (key_buff p') = KEY_BUFF_SIZE.
Proof.
  revert p. induction arrivals as [|a rest IH]; intros p Hlen Hall.
  - exists p. split; [reflexivity | exact Hlen].
  - simpl in Hall. apply andb_true_iff in Hall as [Ha Hrest].
    unfold harmless in Ha. apply andb_true_iff in Ha as [Hopen Hkey].
    assert (Hrun : exists p1, iteration XKeysymToString p a = Running p1).
    { unfold iteration. rewrite Hopen. simpl.
      destruct (xev a) as [w|xk|].
      - destruct (getWindowName (display a) w) as [n|];
          [destruct (is_empty n)|]; eauto.
      - apply Nat.ltb_lt in Hkey.
        destruct (TranslateKeyCode_cases XKeysymToString (key_buff p) xk Hlen)
          as [[Hbig _]|[_ [kb' [E _]]]]; [lia|].
        rewrite E. eauto.
      - eauto. }
    destruct Hrun as [p1 Hrun]. cbn [event_loop]. rewrite Hrun.
    apply IH; [|exact Hrest].
    now apply (iteration_keeps_capacity XKeysymToString p p1 a).
Qed.

Lemma X15_loop_keeps_running_witness :
  exists p',
    event_loop sample_keysym_names process_at_start mixed_arrivals = Running p'
    /\ List.length (key_buff p') = KEY_BUFF_SIZE.
Proof.
  apply (X15_loop_keeps_running sample_keysym_names process_at_start
           mixed_arrivals); reflexivity.
Defined.

(** X16: when the loop, started with [key_buff] at its capacity, writes
    outside the array, a key press whose translation has [KEY_BUFF_SIZE]
    characters or more has arrived. *)
Theorem X16_out_of_bounds_needs_full_lookup
    (XKeysymToString : KeySym -> option string)
    (p : process) (arrivals : list arrival) :
  List.length (key_buff p) = KEY_BUFF_SIZE ->
  event_loop XKeysymToString p arrivals = OutOfBounds ->
  exists a xk,
    In a arrivals /\ xev a = KeyPress xk
    /\ KEY_BUFF_SIZE <= List.length (xk_translation xk).
Proof.
  revert p. induction arrivals as [|a rest IH]; intros p Hlen;
    cbn [event_loop]; [discriminate|].
  destruct (iteration XKeysymToString p a) as [p1|status p1|] eqn:E.
  - intros H.
    apply (iteration_keeps_capacity XKeysymToString p p1 a Hlen) in E.
    destruct (IH p1 E H) as [a' [xk [Hin H']]].
    exists a', xk. split; [now right | exact H'].
  - discriminate.
  - intros _. unfold iteration in E.
    destruct (fopen_ok a); simpl in E; [|discriminate].
    destruct (xev a) as [w|xk|] eqn:Ev.
    + destruct (getWindowName (display a) w) as [n|];
        [destruct (is_empty n)|]; discriminate.
    + exists a, xk. split; [now left|]. split; [exact Ev|].
      destruct (TranslateKeyCode_cases XKeysymToString (key_buff p) xk Hlen)
        as [[Hbig _]|[_ [kb' [E' _]]]]; [exact Hbig|].
      rewrite E' in E. discriminate.
    + discriminate.
Qed.

Lemma X16_out_of_bounds_witness :
  exists a xk,
    In a (three_key_presses
          ++ [mkArrival (KeyPress key_bound_to_256_chars)
                sample_server TimeFails true])
    /\ xev a = KeyPress xk
    /\ KEY_BUFF_SIZE <= List.length (xk_translation xk).
Proof.
  apply (X16_out_of_bounds_needs_full_lookup sample_keysym_names
           process_at_start); [reflexivity | vm_compute; reflexivity].
Defined.

(** X17: arrivals for which nothing is written (events other than key
    presses and focus-ins, and focus-ins on windows without a non-empty
    name) can be taken out of the stream without changing what the loop
    does, as long as the log opens for each arrival. *)
Theorem X17_ignored_events_change_nothing
    (XKeysymToString : KeySym -> option string)
    (p : process) (arrivals : list arrival) :
  forallb fopen_ok arrivals = true ->
  event_loop XKeysymToString p arrivals
  = event_loop XKeysymToString p (filter leaves_record arrivals).
Proof.
  revert p. induction arrivals as [|a rest IH]; intros p Hopen; [reflexivity|].
  simpl in Hopen. apply andb_true_iff in Hopen as [Ha Hrest].
  cbn [filter]. destruct (leaves_record a) eqn:Erec.
  - cbn [event_loop].
    destruct (iteration XKeysymToString p a); auto.
  - cbn [event_loop].
    assert (E : iteration XKeysymToString p a = Running p).
    { unfold iteration. rewrite Ha. simpl.
      unfold leaves_record in Erec.
      destruct (xev a) as [w|xk|]; [|discriminate|reflexivity].
      destruct (getWindowName (display a) w) as [n|]; [|reflexivity].
      apply negb_false_iff in Erec. now rewrite Erec. }
    rewrite E. now apply IH.
Qed.

Lemma X17_ignored_events_witness :
  event_loop sample_keysym_names process_at_start mixed_arrivals
  = event_loop sample_keysym_names process_at_start
      (focus_on 10%N :: three_key_presses).
Proof.
  apply (X17_ignored_events_change_nothing sample_keysym_names
           process_at_start mixed_arrivals).
  reflexivity.
Defined.

(* ================================================================== *)
(** ** main *)

Lemma event_loop_exited (XKeysymToString : KeySym -> option string)
    (arrivals : list arrival) :
  forall p p' status,
    event_loop XKeysymToString p arrivals = Exited status p' ->
    status = 1 /\ exists a, In a arrivals /\ fopen_ok a = false.
Proof.
  induction arrivals as [|a rest IH]; intros p p' status; cbn [event_loop];
    [discriminate|].
  destruct (iteration XKeysymToString p a) as [p1|status1 p1|] eqn:E.
  - intros H. apply IH in H as [-> [a' [Hin Ha']]].
    split; [reflexivity|]. exists a'. split; [now right | exact Ha'].
  - intros [= <- <-]. apply iteration_exited in E as [Hopen [-> _]].
    split; [reflexivity|]. exists a. split; [now left | exact Hopen].
  - discriminate.
Qed.

Lemma existsb_accepts_empty (disp : XServer) (ws : list Window) :
  existsb (accepts disp (Some "")) ws = false.
Proof.
  induction ws as [|w ws IH]; simpl; [reflexivity|].
  now rewrite accepts_empty_designator.
Qed.

(** X18: [main] leaves through [exit] with status 10 exactly when a
    display argument is given and the display cannot be opened, and
    otherwise only with status 1: always when the display argument is
    missing, and else only when the log cannot be created or cannot be
    reopened for some event.  It never exits with status 0. *)
Theorem X18_main_exit_statuses
    (XKeysymToString : KeySym -> option string)
    (XOpenDisplay : string -> option XServer)
    (fuel : nat) (argv : list string) (fopen_w_ok : bool)
    (arrivals : list arrival) :
  let result :=
    main XKeysymToString XOpenDisplay fuel argv fopen_w_ok arrivals in
  (forall status,
     exit_status result = Some status ->
     (status = 10 /\ 2 <= List.length argv
      /\ XOpenDisplay (nth 1 argv "") = None)
     \/ (status = 1
         /\ (List.length argv < 2
             \/ fopen_w_ok = false
             \/ exists a, In a arrivals /\ fopen_ok a = false)))
  /\ (2 <= List.length argv -> XOpenDisplay (nth 1 argv "") = None ->
      result = StartupExit 10 initial_client)
  /\ (List.length argv < 2 -> result = StartupExit 1 initial_client).
Proof.
  unfold main. split; [|split].
  - intros status.
    destruct (List.length argv <? 2)%nat eqn:Eargc.
    + apply Nat.ltb_lt in Eargc. intros [= <-]. right. auto.
    + apply Nat.ltb_ge in Eargc.
      destruct (XOpenDisplay (nth 1 argv "")) as [d|] eqn:Eopen.
      * destruct (snoop_windows d fuel _ initial_client) as [[found c]|];
          [|discriminate].
        destruct fopen_w_ok; simpl.
        -- destruct (event_loop XKeysymToString process_at_start arrivals)
             as [p'|status' p'|] eqn:Eloop; try discriminate.
           intros [= <-]. apply event_loop_exited in Eloop as [-> Hex].
           right. auto.
        -- intros [= <-]. right. auto.
      * intros [= <-]. left. auto.
  - intros Hargc Hopen. apply Nat.ltb_ge in Hargc. now rewrite Hargc, Hopen.
  - intros Hargc. apply Nat.ltb_lt in Hargc. now rewrite Hargc.
Qed.

Lemma X18_main_exit_statuses_witness :
  main sample_keysym_names sample_XOpenDisplay 4
    ["xkey"; ":1"; "firefox"] true mixed_arrivals
  = StartupExit 10 initial_client
  /\ main sample_keysym_names sample_XOpenDisplay 4 ["xkey"] true mixed_arrivals
     = StartupExit 1 initial_client.
Proof.
  split.
  - apply (proj1 (proj2 (X18_main_exit_statuses sample_keysym_names
                           sample_XOpenDisplay 4 ["xkey"; ":1"; "firefox"]
                           true mixed_arrivals)));
      [simpl; lia | reflexivity].
  - apply (proj2 (proj2 (X18_main_exit_statuses sample_keysym_names
                           sample_XOpenDisplay 4 ["xkey"] true
                           mixed_arrivals))).
    simpl; lia.
Defined.

(** X19: started with a display argument and no designator, [main] uses
    the empty designator: on every hierarchy it reports no match and
    selects input on every window of the hierarchy before it enters the
    loop. *)
Theorem X19_no_designator_monitors_every_window
    (XKeysymToString : KeySym -> option string)
    (XOpenDisplay : string -> option XServer)
    (fuel : nat) (program hostname : string) (d : XServer) (t : hierarchy)
    (arrivals : list arrival) :
  XOpenDisplay hostname = Some d ->
  mirrors d t = true ->
  handle t = DefaultRootWindow d ->
  height t <= fuel ->
  exists c,
    main XKeysymToString XOpenDisplay fuel [program; hostname] true arrivals
    = Looping c false (event_loop XKeysymToString process_at_start arrivals)
    /\ monitoring c = descendants t.
Proof.
  intros Hopen Hm Hroot Hfuel.
  destruct (snoop_windows_on_hierarchy d t (Some "") fuel Hm Hroot Hfuel)
    as [c [Hs [_ [_ Hmon]]]].
  rewrite existsb_accepts_empty in Hs, Hmon.
  exists c. split; [|exact Hmon].
  unfold main. cbn [List.length Nat.ltb Nat.leb nth].
  now rewrite Hopen, Hs.
Qed.

Lemma X19_no_designator_witness :
  exists c,
    main sample_keysym_names sample_XOpenDisplay 4 ["xkey"; ":0"] true
      three_key_presses
    = Looping c false
        (event_loop sample_keysym_names process_at_start three_key_presses)
    /\ monitoring c = descendants sample_hierarchy.
Proof.
  apply (X19_no_designator_monitors_every_window sample_keysym_names
           sample_XOpenDisplay 4 "xkey" ":0" sample_server sample_hierarchy);
    [reflexivity | reflexivity | reflexivity | simpl; lia].
Defined.

(** X20: once [main] is in the loop, the log always begins with the
    banner line written at start-up, and the input selection made at
    start-up does not depend on the events that arrive. *)
Theorem X20_log_begins_with_banner
    (XKeysymToString : KeySym -> option string)
    (XOpenDisplay : string -> option XServer)
    (fuel : nat) (argv : list string) (fopen_w_ok : bool)
    (arrivals : list arrival) (c : client) (found : bool) (o : outcome)
    (p : process) :
  main XKeysymToString XOpenDisplay fuel argv fopen_w_ok arrivals
  = Looping c found o ->
  process_of o = Some p ->
  (exists log, keylog p = ("Keylogger started" ++ LF ++ log)%string)
  /\ (forall others,
        exists o',
          main XKeysymToString XOpenDisplay fuel argv fopen_w_ok others
          = Looping c found o').
Proof.
  unfold main.
  destruct (List.length argv <? 2)%nat; [discriminate|].
  destruct (XOpenDisplay (nth 1 argv "")) as [d|]; [|discriminate].
  destruct (snoop_windows d fuel _ initial_client) as [[found' c']|];
    [|discriminate].
  destruct fopen_w_ok; simpl; [|discriminate].
  intros [= <- <- <-] Hp. split.
  - apply event_loop_appends in Hp as [out [log [_ Hlog]]].
    exists log. rewrite Hlog. cbn [keylog process_at_start].
    now rewrite append_assoc.
  - intros others. eexists. reflexivity.
Qed.

Lemma X20_log_begins_with_banner_witness :
  exists c found o p,
    main sample_keysym_names sample_XOpenDisplay 4 ["xkey"; ":0"; "Fire"] true
      mixed_arrivals
    = Looping c found o
    /\ process_of o = Some p
    /\ exists log, keylog p = ("Keylogger started" ++ LF ++ log)%string.
Proof.
  eexists _, _, _, _. split; [vm_compute; reflexivity|].
  split; [reflexivity|].
  eapply proj1.
  eapply (X20_log_begins_with_banner sample_keysym_names sample_XOpenDisplay 4
            ["xkey"; ":0"; "Fire"] true mixed_arrivals);
    vm_compute; reflexivity.
Defined.
